(** * CrossPoint calendar worker: rendering core and BMP encoder

    Shallow embedding of [worker/src/index.ts]: the bitmap font and its
    rasterizer, the text and shape primitives, the weather icons, the page
    composer [renderDisplay], the BMP encoder [createBMP] and the
    dimension parsing of the request handler.

    Modelling conventions.
    - A JS string is its list of UTF-16 code units ([jsstr]); [.length]
      and [.slice] work on code units, [for (const c of s)] on code points.
    - A [Uint8Array] is a [buf]: a length and a content function; an
      indexed store outside [0, length) is silently ignored, as for typed
      arrays, and the stored value is reduced modulo 256.
    - Every drawing primitive returns the list of the stores
      [pixels[i] = c] it executes, in order (its write log); the buffer is
      the fold of the log.  The log keeps out-of-range stores, which the
      typed array then drops. *)

From Stdlib Require Import ZArith Bool Lia QArith Qround Lqa String Ascii List Permutation.
Import ListNotations.
Open Scope Z_scope.

(** ** JS strings *)

Definition jsstr := list Z.

(** An ASCII string literal as UTF-16 code units. *)
Fixpoint js (s : string) : jsstr :=
  match s with
  | EmptyString => []
  | String a r => Z.of_nat (nat_of_ascii a) :: js r
  end.

Fixpoint jsstr_eqb (a b : jsstr) : bool :=
  match a, b with
  | [], [] => true
  | x :: a', y :: b' => (x =? y) && jsstr_eqb a' b'
  | _, _ => false
  end.

Definition is_high_surrogate (u : Z) : bool := (0xD800 <=? u) && (u <=? 0xDBFF).
Definition is_low_surrogate (u : Z) : bool := (0xDC00 <=? u) && (u <=? 0xDFFF).

(** The code points visited by [for (const char of text)]: a high
    surrogate followed by a low one is one code point, any other unit
    (a lone surrogate included) is one. *)
Fixpoint code_points (s : jsstr) : list Z :=
  match s with
  | [] => []
  | u :: rest =>
      if is_high_surrogate u then
        match rest with
        | l :: rest' =>
            if is_low_surrogate l
            then (0x10000 + (u - 0xD800) * 0x400 + (l - 0xDC00)) :: code_points rest'
            else u :: code_points rest
        | [] => [u]
        end
      else u :: code_points rest
  end.

(** No character outside the BMP: no high surrogate is directly followed
    by a low one (the pairs [code_points] joins); lone surrogates allowed. *)
Fixpoint no_astral (s : jsstr) : bool :=
  match s with
  | u :: ((l :: _) as rest) => negb (is_high_surrogate u && is_low_surrogate l) && no_astral rest
  | _ => true
  end.

(** [`${n}`] for an integer-valued number. *)
Fixpoint digits_aux (fuel : nat) (n : Z) (acc : jsstr) : jsstr :=
  match fuel with
  | O => acc
  | S f =>
      let acc' := (48 + n mod 10) :: acc in
      if n <? 10 then acc' else digits_aux f (n / 10) acc'
  end.

Definition Z_to_js (z : Z) : jsstr :=
  if z <? 0
  then 45 :: digits_aux (S (Z.to_nat (Z.log2 (- z)))) (- z) []
  else digits_aux (S (Z.to_nat (Z.log2 z))) z [].

(** ** Integer ranges used by the [for] loops *)

(** [zseq a n] is [a, a+1, ..., a+n-1] (empty when [n <= 0]). *)
Definition zseq (a n : Z) : list Z :=
  map (fun k => a + Z.of_nat k) (seq 0 (Z.to_nat n)).

(** ** Pixel buffers ([Uint8Array]) *)

Record buf := { blen : Z; bget : Z -> Z }.

(** [new Uint8Array(n).fill(v)] *)
Definition buf_fill (n v : Z) : buf := {| blen := n; bget := fun _ => v |}.

(** [pixels[i] = v]: ignored outside [0, length). *)
Definition store (b : buf) (i v : Z) : buf :=
  if (0 <=? i) && (i <? blen b)
  then {| blen := blen b; bget := fun j => if j =? i then v mod 256 else bget b j |}
  else b.

Definition write := (Z * Z)%type.

Definition apply_writes (b : buf) (ws : list write) : buf :=
  fold_left (fun b '(i, v) => store b i v) ws b.

(** ** Colours *)

Definition INK_BLACK := 0.
Definition DARK_GRAY := 64.
Definition LIGHT_GRAY := 176.
Definition PAPER_WHITE := 255.

(** ** The 8x12 bitmap font, keyed by code point *)

Definition FONT_DATA (c : Z) : option (list Z) :=
  match c with
  | 48 => Some [0x3C; 0x66; 0x6E; 0x76; 0x66; 0x66; 0x3C; 0x00; 0x00; 0x00; 0x00; 0x00] (* 0 *)
  | 49 => Some [0x18; 0x38; 0x18; 0x18; 0x18; 0x18; 0x7E; 0x00; 0x00; 0x00; 0x00; 0x00] (* 1 *)
  | 50 => Some [0x3C; 0x66; 0x06; 0x1C; 0x30; 0x60; 0x7E; 0x00; 0x00; 0x00; 0x00; 0x00] (* 2 *)
  | 51 => Some [0x3C; 0x66; 0x06; 0x1C; 0x06; 0x66; 0x3C; 0x00; 0x00; 0x00; 0x00; 0x00] (* 3 *)
  | 52 => Some [0x0C; 0x1C; 0x3C; 0x6C; 0x7E; 0x0C; 0x0C; 0x00; 0x00; 0x00; 0x00; 0x00] (* 4 *)
  | 53 => Some [0x7E; 0x60; 0x7C; 0x06; 0x06; 0x66; 0x3C; 0x00; 0x00; 0x00; 0x00; 0x00] (* 5 *)
  | 54 => Some [0x1C; 0x30; 0x60; 0x7C; 0x66; 0x66; 0x3C; 0x00; 0x00; 0x00; 0x00; 0x00] (* 6 *)
  | 55 => Some [0x7E; 0x06; 0x0C; 0x18; 0x30; 0x30; 0x30; 0x00; 0x00; 0x00; 0x00; 0x00] (* 7 *)
  | 56 => Some [0x3C; 0x66; 0x66; 0x3C; 0x66; 0x66; 0x3C; 0x00; 0x00; 0x00; 0x00; 0x00] (* 8 *)
  | 57 => Some [0x3C; 0x66; 0x66; 0x3E; 0x06; 0x0C; 0x38; 0x00; 0x00; 0x00; 0x00; 0x00] (* 9 *)
  | 65 => Some [0x18; 0x3C; 0x66; 0x66; 0x7E; 0x66; 0x66; 0x00; 0x00; 0x00; 0x00; 0x00] (* A *)
  | 66 => Some [0x7C; 0x66; 0x66; 0x7C; 0x66; 0x66; 0x7C; 0x00; 0x00; 0x00; 0x00; 0x00] (* B *)
  | 67 => Some [0x3C; 0x66; 0x60; 0x60; 0x60; 0x66; 0x3C; 0x00; 0x00; 0x00; 0x00; 0x00] (* C *)
  | 68 => Some [0x78; 0x6C; 0x66; 0x66; 0x66; 0x6C; 0x78; 0x00; 0x00; 0x00; 0x00; 0x00] (* D *)
  | 69 => Some [0x7E; 0x60; 0x60; 0x7C; 0x60; 0x60; 0x7E; 0x00; 0x00; 0x00; 0x00; 0x00] (* E *)
  | 70 => Some [0x7E; 0x60; 0x60; 0x7C; 0x60; 0x60; 0x60; 0x00; 0x00; 0x00; 0x00; 0x00] (* F *)
  | 71 => Some [0x3C; 0x66; 0x60; 0x6E; 0x66; 0x66; 0x3C; 0x00; 0x00; 0x00; 0x00; 0x00] (* G *)
  | 72 => Some [0x66; 0x66; 0x66; 0x7E; 0x66; 0x66; 0x66; 0x00; 0x00; 0x00; 0x00; 0x00] (* H *)
  | 73 => Some [0x3C; 0x18; 0x18; 0x18; 0x18; 0x18; 0x3C; 0x00; 0x00; 0x00; 0x00; 0x00] (* I *)
  | 74 => Some [0x06; 0x06; 0x06; 0x06; 0x06; 0x66; 0x3C; 0x00; 0x00; 0x00; 0x00; 0x00] (* J *)
  | 75 => Some [0x66; 0x6C; 0x78; 0x70; 0x78; 0x6C; 0x66; 0x00; 0x00; 0x00; 0x00; 0x00] (* K *)
  | 76 => Some [0x60; 0x60; 0x60; 0x60; 0x60; 0x60; 0x7E; 0x00; 0x00; 0x00; 0x00; 0x00] (* L *)
  | 77 => Some [0x63; 0x77; 0x7F; 0x6B; 0x63; 0x63; 0x63; 0x00; 0x00; 0x00; 0x00; 0x00] (* M *)
  | 78 => Some [0x66; 0x76; 0x7E; 0x7E; 0x6E; 0x66; 0x66; 0x00; 0x00; 0x00; 0x00; 0x00] (* N *)
  | 79 => Some [0x3C; 0x66; 0x66; 0x66; 0x66; 0x66; 0x3C; 0x00; 0x00; 0x00; 0x00; 0x00] (* O *)
  | 80 => Some [0x7C; 0x66; 0x66; 0x7C; 0x60; 0x60; 0x60; 0x00; 0x00; 0x00; 0x00; 0x00] (* P *)
  | 81 => Some [0x3C; 0x66; 0x66; 0x66; 0x6A; 0x6C; 0x36; 0x00; 0x00; 0x00; 0x00; 0x00] (* Q *)
  | 82 => Some [0x7C; 0x66; 0x66; 0x7C; 0x6C; 0x66; 0x66; 0x00; 0x00; 0x00; 0x00; 0x00] (* R *)
  | 83 => Some [0x3C; 0x66; 0x60; 0x3C; 0x06; 0x66; 0x3C; 0x00; 0x00; 0x00; 0x00; 0x00] (* S *)
  | 84 => Some [0x7E; 0x18; 0x18; 0x18; 0x18; 0x18; 0x18; 0x00; 0x00; 0x00; 0x00; 0x00] (* T *)
  | 85 => Some [0x66; 0x66; 0x66; 0x66; 0x66; 0x66; 0x3C; 0x00; 0x00; 0x00; 0x00; 0x00] (* U *)
  | 86 => Some [0x66; 0x66; 0x66; 0x66; 0x66; 0x3C; 0x18; 0x00; 0x00; 0x00; 0x00; 0x00] (* V *)
  | 87 => Some [0x63; 0x63; 0x63; 0x6B; 0x7F; 0x77; 0x63; 0x00; 0x00; 0x00; 0x00; 0x00] (* W *)
  | 88 => Some [0x66; 0x66; 0x3C; 0x18; 0x3C; 0x66; 0x66; 0x00; 0x00; 0x00; 0x00; 0x00] (* X *)
  | 89 => Some [0x66; 0x66; 0x66; 0x3C; 0x18; 0x18; 0x18; 0x00; 0x00; 0x00; 0x00; 0x00] (* Y *)
  | 90 => Some [0x7E; 0x06; 0x0C; 0x18; 0x30; 0x60; 0x7E; 0x00; 0x00; 0x00; 0x00; 0x00] (* Z *)
  | 97 => Some [0x00; 0x00; 0x3C; 0x06; 0x3E; 0x66; 0x3E; 0x00; 0x00; 0x00; 0x00; 0x00] (* a *)
  | 98 => Some [0x60; 0x60; 0x7C; 0x66; 0x66; 0x66; 0x7C; 0x00; 0x00; 0x00; 0x00; 0x00] (* b *)
  | 99 => Some [0x00; 0x00; 0x3C; 0x66; 0x60; 0x66; 0x3C; 0x00; 0x00; 0x00; 0x00; 0x00] (* c *)
  | 100 => Some [0x06; 0x06; 0x3E; 0x66; 0x66; 0x66; 0x3E; 0x00; 0x00; 0x00; 0x00; 0x00] (* d *)
  | 101 => Some [0x00; 0x00; 0x3C; 0x66; 0x7E; 0x60; 0x3C; 0x00; 0x00; 0x00; 0x00; 0x00] (* e *)
  | 102 => Some [0x1C; 0x36; 0x30; 0x7C; 0x30; 0x30; 0x30; 0x00; 0x00; 0x00; 0x00; 0x00] (* f *)
  | 103 => Some [0x00; 0x00; 0x3E; 0x66; 0x66; 0x3E; 0x06; 0x3C; 0x00; 0x00; 0x00; 0x00] (* g *)
  | 104 => Some [0x60; 0x60; 0x7C; 0x66; 0x66; 0x66; 0x66; 0x00; 0x00; 0x00; 0x00; 0x00] (* h *)
  | 105 => Some [0x18; 0x00; 0x38; 0x18; 0x18; 0x18; 0x3C; 0x00; 0x00; 0x00; 0x00; 0x00] (* i *)
  | 106 => Some [0x0C; 0x00; 0x1C; 0x0C; 0x0C; 0x0C; 0x6C; 0x38; 0x00; 0x00; 0x00; 0x00] (* j *)
  | 107 => Some [0x60; 0x60; 0x66; 0x6C; 0x78; 0x6C; 0x66; 0x00; 0x00; 0x00; 0x00; 0x00] (* k *)
  | 108 => Some [0x38; 0x18; 0x18; 0x18; 0x18; 0x18; 0x3C; 0x00; 0x00; 0x00; 0x00; 0x00] (* l *)
  | 109 => Some [0x00; 0x00; 0x76; 0x7F; 0x6B; 0x6B; 0x63; 0x00; 0x00; 0x00; 0x00; 0x00] (* m *)
  | 110 => Some [0x00; 0x00; 0x7C; 0x66; 0x66; 0x66; 0x66; 0x00; 0x00; 0x00; 0x00; 0x00] (* n *)
  | 111 => Some [0x00; 0x00; 0x3C; 0x66; 0x66; 0x66; 0x3C; 0x00; 0x00; 0x00; 0x00; 0x00] (* o *)
  | 112 => Some [0x00; 0x00; 0x7C; 0x66; 0x66; 0x7C; 0x60; 0x60; 0x00; 0x00; 0x00; 0x00] (* p *)
  | 113 => Some [0x00; 0x00; 0x3E; 0x66; 0x66; 0x3E; 0x06; 0x06; 0x00; 0x00; 0x00; 0x00] (* q *)
  | 114 => Some [0x00; 0x00; 0x6E; 0x76; 0x60; 0x60; 0x60; 0x00; 0x00; 0x00; 0x00; 0x00] (* r *)
  | 115 => Some [0x00; 0x00; 0x3E; 0x60; 0x3C; 0x06; 0x7C; 0x00; 0x00; 0x00; 0x00; 0x00] (* s *)
  | 116 => Some [0x30; 0x30; 0x7C; 0x30; 0x30; 0x36; 0x1C; 0x00; 0x00; 0x00; 0x00; 0x00] (* t *)
  | 117 => Some [0x00; 0x00; 0x66; 0x66; 0x66; 0x66; 0x3E; 0x00; 0x00; 0x00; 0x00; 0x00] (* u *)
  | 118 => Some [0x00; 0x00; 0x66; 0x66; 0x66; 0x3C; 0x18; 0x00; 0x00; 0x00; 0x00; 0x00] (* v *)
  | 119 => Some [0x00; 0x00; 0x63; 0x6B; 0x6B; 0x7F; 0x36; 0x00; 0x00; 0x00; 0x00; 0x00] (* w *)
  | 120 => Some [0x00; 0x00; 0x66; 0x3C; 0x18; 0x3C; 0x66; 0x00; 0x00; 0x00; 0x00; 0x00] (* x *)
  | 121 => Some [0x00; 0x00; 0x66; 0x66; 0x66; 0x3E; 0x06; 0x3C; 0x00; 0x00; 0x00; 0x00] (* y *)
  | 122 => Some [0x00; 0x00; 0x7E; 0x0C; 0x18; 0x30; 0x7E; 0x00; 0x00; 0x00; 0x00; 0x00] (* z *)
  | 32 => Some [0x00; 0x00; 0x00; 0x00; 0x00; 0x00; 0x00; 0x00; 0x00; 0x00; 0x00; 0x00] (* space *)
  | 58 => Some [0x00; 0x18; 0x18; 0x00; 0x18; 0x18; 0x00; 0x00; 0x00; 0x00; 0x00; 0x00] (* : *)
  | 46 => Some [0x00; 0x00; 0x00; 0x00; 0x00; 0x18; 0x18; 0x00; 0x00; 0x00; 0x00; 0x00] (* . *)
  | 44 => Some [0x00; 0x00; 0x00; 0x00; 0x00; 0x18; 0x18; 0x30; 0x00; 0x00; 0x00; 0x00] (* , *)
  | 45 => Some [0x00; 0x00; 0x00; 0x7E; 0x00; 0x00; 0x00; 0x00; 0x00; 0x00; 0x00; 0x00] (* - *)
  | 47 => Some [0x06; 0x0C; 0x18; 0x30; 0x60; 0x40; 0x00; 0x00; 0x00; 0x00; 0x00; 0x00] (* / *)
  | 176 => Some [0x1C; 0x36; 0x36; 0x1C; 0x00; 0x00; 0x00; 0x00; 0x00; 0x00; 0x00; 0x00] (* degree sign *)
  | 39 => Some [0x18; 0x18; 0x30; 0x00; 0x00; 0x00; 0x00; 0x00; 0x00; 0x00; 0x00; 0x00] (* apostrophe *)
  | 40 => Some [0x0C; 0x18; 0x30; 0x30; 0x30; 0x18; 0x0C; 0x00; 0x00; 0x00; 0x00; 0x00] (* left paren *)
  | 41 => Some [0x30; 0x18; 0x0C; 0x0C; 0x0C; 0x18; 0x30; 0x00; 0x00; 0x00; 0x00; 0x00] (* right paren *)
  | 43 => Some [0x00; 0x18; 0x18; 0x7E; 0x18; 0x18; 0x00; 0x00; 0x00; 0x00; 0x00; 0x00] (* + *)
  | _ => None
  end.

(** ** Text primitives *)

Definition drawChar (width x y c color scale : Z) : list write :=
  match FONT_DATA c with
  | None => []
  | Some data =>
      flat_map (fun row =>
        let rowData := nth (Z.to_nat row) data 0 in
        flat_map (fun col =>
          if Z.land rowData (Z.shiftr 0x80 col) =? 0 then [] else
          flat_map (fun sy =>
            flat_map (fun sx =>
              let px := x + col * scale + sx in
              let py := y + row * scale + sy in
              if (0 <=? px) && (px <? width) && (0 <=? py)
              then [(py * width + px, color)] else [])
              (zseq 0 scale))
            (zseq 0 scale))
          (zseq 0 8))
        (zseq 0 8)
  end.

(** The loop of [drawText]: the writes and the final cursor [cx]. *)
Fixpoint drawText_loop (width cx y : Z) (cps : list Z) (color scale : Z)
  : list write * Z :=
  match cps with
  | [] => ([], cx)
  | c :: rest =>
      let '(ws, cx') := drawText_loop width (cx + 8 * scale) y rest color scale in
      (drawChar width cx y c color scale ++ ws, cx')
  end.

Definition drawText (width x y : Z) (text : jsstr) (color scale : Z) : list write :=
  fst (drawText_loop width x y (code_points text) color scale).

Definition getTextWidth (text : jsstr) (scale : Z) : Z :=
  Z.of_nat (length text) * 8 * scale.

(** ** Shape primitives *)

Definition fillRect (width height x y w h color : Z) : list write :=
  flat_map (fun py =>
    flat_map (fun px =>
      if (0 <=? px) && (0 <=? py) then [(py * width + px, color)] else [])
      (zseq x (Z.min (x + w) width - x)))
    (zseq y (Z.min (y + h) height - y)).

Definition drawHLine (width y x1 x2 color thickness : Z) : list write :=
  fillRect width 9999 x1 y (x2 - x1) thickness color.

(** The [while (x < x2)] loop of [drawDashedHLine].  Each iteration adds
    [dashLen] or [gapLen] to [x]; the composer calls it with 6 and 4, so
    [x2 - x1] iterations are enough fuel for it to leave the loop. *)
Fixpoint dashed_loop (fuel : nat) (width y x x2 color dashLen gapLen : Z)
    (drawing : bool) : list write :=
  match fuel with
  | O => []
  | S f =>
      if x <? x2 then
        if drawing then
          map (fun px => (y * width + px, color)) (zseq x (Z.min (x + dashLen) x2 - x))
          ++ dashed_loop f width y (x + dashLen) x2 color dashLen gapLen false
        else dashed_loop f width y (x + gapLen) x2 color dashLen gapLen true
      else []
  end.

Definition drawDashedHLine (width y x1 x2 color dashLen gapLen : Z) : list write :=
  dashed_loop (Z.to_nat (x2 - x1)) width y x1 x2 color dashLen gapLen true.

Definition drawCenteredText_x (width : Z) (text : jsstr) (scale : Z) : Z :=
  (width - getTextWidth text scale) / 2.

Definition drawRightAlignedText_x (width : Z) (text : jsstr) (scale margin : Z) : Z :=
  width - margin - getTextWidth text scale.

(** ** Weather icon dispatch *)

Inductive icon := Sun | Cloud | Fog | Rain | Snow | Thunderstorm | UnknownIcon.

(** The [if]-chain of [drawWeatherIcon], as a selection of the branch. *)
Definition icon_of_code (code : Z) : icon :=
  if (code =? 0) || (code =? 1) then Sun
  else if (2 <=? code) && (code <=? 3) then Cloud
  else if (45 <=? code) && (code <=? 48) then Fog
  else if ((51 <=? code) && (code <=? 67)) || ((80 <=? code) && (code <=? 82)) then Rain
  else if ((71 <=? code) && (code <=? 77)) || ((85 <=? code) && (code <=? 86)) then Snow
  else if 95 <=? code then Thunderstorm
  else UnknownIcon.

(** [Math.round] on a number given exactly: half-way rounds up. *)
Definition jsround (q : Q) : Z := Qfloor (q + (1 # 2))%Q.

(** ** The page model: draw commands *)

(** One call of a drawing primitive made by [renderDisplay]:
    [drawText] (centred and right-aligned text are [drawText] at the
    computed origin), [drawHLine], [drawDashedHLine], [drawWeatherIcon]. *)
Inductive cmd :=
| CText (x y : Z) (text : jsstr) (color scale : Z)
| CHLine (y x1 x2 color thickness : Z)
| CDashed (y x1 x2 color dashLen gapLen : Z)
| CIcon (x y code : Z).

Record CalendarEvent := { time : jsstr; title : jsstr; isAllDay : bool }.

(** [DayEvents]; its [date] field is only used upstream for sorting. *)
Record DayEvents := { label : jsstr; events : list CalendarEvent }.

Record WeatherData := {
  temperature : Z; temperatureHigh : Z; temperatureLow : Z;
  condition : jsstr; conditionCode : Z }.

(** What [renderDisplay] reads of [generatedAt]: [getDay()], [getMonth()],
    [getDate()] and the [toLocaleTimeString] result. *)
Record GeneratedAt := {
  getDay : Z; getMonth : Z; getDate : Z; localeTimeString : jsstr }.

(** ** Title truncation *)

Definition title_cond (maxTitleWidth : Z) (title : jsstr) : bool :=
  (getTextWidth title 2 >? maxTitleWidth) && (3 <? Z.of_nat (length title)).

(** [s.slice(0, -4)]: end index [max(length - 4, 0)]. *)
Definition slice_0_m4 (s : jsstr) : jsstr := firstn (length s - 4) s.

Definition trunc_step (title : jsstr) : jsstr := slice_0_m4 title ++ js "...".

Fixpoint truncate_loop (fuel : nat) (maxTitleWidth : Z) (title : jsstr) : jsstr :=
  match fuel with
  | O => title
  | S f =>
      if title_cond maxTitleWidth title
      then truncate_loop f maxTitleWidth (trunc_step title)
      else title
  end.

(** The [while] loop of [renderDisplay]; one iteration per code unit is
    enough fuel (see [truncate_terminates]). *)
Definition truncateTitle (maxTitleWidth : Z) (title : jsstr) : jsstr :=
  truncate_loop (length title) maxTitleWidth title.

(** ** The agenda loops *)

(** Which call of the agenda loops issued a command: day index and event
    index are the loop counters [dayIndex] and [eventIndex]. *)
Inductive site :=
| SSep (d : nat) | SLabel (d : nat) | SNoEvents (d : nat)
| STime (d i : nat) | STitle (d i : nat) | SDivider (d i : nat)
| SMore (d : nat).

Definition MARGIN := 24.
Definition eventRowHeight := 45.
Definition dayHeaderHeight := 40.
Definition timeColumnWidth := 100.

Definition more_text (remaining : Z) : jsstr :=
  js "+" ++ Z_to_js remaining ++ js " more...".

Fixpoint events_loop (width maxContentY maxTitleWidth : Z) (d : nat)
    (isToday : bool) (nevents : nat) (evs : list CalendarEvent) (i : nat)
    (eventY : Z) : list (site * cmd) * Z :=
  match evs with
  | [] => ([], eventY)
  | ev :: rest =>
      if eventY + 30 >? maxContentY then
        let remaining := Z.of_nat nevents - Z.of_nat i in
        if remaining >? 0
        then ([(SMore d, CText MARGIN eventY (more_text remaining) LIGHT_GRAY 2)],
              eventY + 30)
        else ([], eventY)
      else
        let eventColor := if isToday then INK_BLACK else DARK_GRAY in
        let t := truncateTitle maxTitleWidth (title ev) in
        let y1 := eventY + 26 in
        let divider :=
          if (Z.of_nat i <? Z.of_nat nevents - 1) && (y1 + eventRowHeight <=? maxContentY)
          then [(SDivider d i, CHLine y1 MARGIN (width - MARGIN) LIGHT_GRAY 1)]
          else [] in
        let '(cs, y') :=
          events_loop width maxContentY maxTitleWidth d isToday nevents rest (S i)
            (y1 + (eventRowHeight - 26)) in
        ((STime d i, CText MARGIN eventY (time ev) eventColor 2)
           :: (STitle d i, CText (MARGIN + timeColumnWidth) eventY t eventColor 2)
           :: divider ++ cs, y')
  end.

Fixpoint days_loop (width maxContentY maxTitleWidth : Z) (d : nat)
    (days : list DayEvents) (eventY : Z) : list (site * cmd) :=
  match days with
  | [] => []
  | day :: rest =>
      if eventY + (dayHeaderHeight + eventRowHeight) >? maxContentY then []
      else
        let '(sep, y1) :=
          match d with
          | O => ([], eventY)
          | S _ => ([(SSep d, CDashed eventY MARGIN (width - MARGIN) DARK_GRAY 6 4)],
                    eventY + 15)
          end in
        let isToday := jsstr_eqb (label day) (js "TODAY") in
        let labelColor := if isToday then INK_BLACK else DARK_GRAY in
        let lbl := (SLabel d, CText MARGIN y1 (label day) labelColor 2) in
        let y2 := y1 + (dayHeaderHeight - 5) in
        match events day with
        | [] =>
            sep ++ lbl
              :: (SNoEvents d, CText (MARGIN + timeColumnWidth) y2 (js "No events") LIGHT_GRAY 2)
              :: days_loop width maxContentY maxTitleWidth (S d) rest (y2 + eventRowHeight)
        | evs =>
            let '(cs, y3) :=
              events_loop width maxContentY maxTitleWidth d isToday (length evs) evs 0 y2 in
            sep ++ lbl :: cs ++ days_loop width maxContentY maxTitleWidth (S d) rest y3
        end
  end.

(** The agenda of [renderDisplay]: [maxContentY = height - FOOTER_HEIGHT],
    [maxTitleWidth = contentWidth - timeColumnWidth - 10], first row at
    [dateSectionEnd + 20 = 270]. *)
Definition agenda (width height : Z) (days : list DayEvents) : list (site * cmd) :=
  days_loop width (height - 50) ((width - MARGIN * 2) - timeColumnWidth - 10) 0 days 270.

Definition monthNames : list jsstr :=
  map js ["JAN"; "FEB"; "MAR"; "APR"; "MAY"; "JUN"; "JUL"; "AUG"; "SEP"; "OCT"; "NOV"; "DEC"]%string.

Definition DAY_NAMES : list jsstr :=
  map js ["SUNDAY"; "MONDAY"; "TUESDAY"; "WEDNESDAY"; "THURSDAY"; "FRIDAY"; "SATURDAY"]%string.

(** [arr[i]] inside a template literal: [undefined] prints as such. *)
Definition js_index (l : list jsstr) (i : Z) : jsstr :=
  if (0 <=? i) && (i <? Z.of_nat (length l)) then nth (Z.to_nat i) l [] else js "undefined".

Definition render_cmds (width height : Z) (weather : WeatherData)
    (days : list DayEvents) (generatedAt : GeneratedAt) : list cmd :=
  let tempStr := Z_to_js (temperature weather) in
  let tempWidth := getTextWidth tempStr 10 in
  let rightX := 240 in
  let hiLoStr := js "H:" ++ Z_to_js (temperatureHigh weather)
                 ++ js " L:" ++ Z_to_js (temperatureLow weather) in
  let dateStr := js_index DAY_NAMES (getDay generatedAt) ++ js ", "
                 ++ js_index monthNames (getMonth generatedAt) ++ js " "
                 ++ Z_to_js (getDate generatedAt) in
  let footerY := height - 30 in
  let genStr := js "Generated " ++ localeTimeString generatedAt in
  [ CText MARGIN 30 tempStr INK_BLACK 10;
    CText (MARGIN + tempWidth) 30 [176] INK_BLACK 4;
    CIcon rightX 20 (conditionCode weather);
    CText (rightX + 56) 28 (js "BROOKLYN NY") INK_BLACK 2;
    CText (rightX + 56) 60 (condition weather) DARK_GRAY 2;
    CText (rightX + 56) 92 hiLoStr DARK_GRAY 2;
    CHLine 180 MARGIN (width - MARGIN) INK_BLACK 3;
    CText (drawCenteredText_x width dateStr 3) 200 dateStr INK_BLACK 3;
    CHLine 250 MARGIN (width - MARGIN) INK_BLACK 2 ]
  ++ map snd (agenda width height days)
  ++ [ CHLine (footerY - 10) MARGIN (width - MARGIN) LIGHT_GRAY 1;
       CText (drawRightAlignedText_x width genStr 1 MARGIN) footerY genStr DARK_GRAY 1 ].

(** ** Weather icons and the page renderer *)

Section Render.

(** [Math.cos(angle * Math.PI / 180)] and [Math.sin(...)] at an angle in
    whole degrees, the values the icons round to pixels.  They are left
    abstract: the results below hold for every choice. *)
Variables mcos msin : Z -> Q.

(** One sampled point of a circle or arc: [Math.round(c + r * cos)],
    [Math.round(c' + r * sin)]. *)
Definition arc_x (cx r : Q) (angle : Z) : Z := jsround (cx + r * mcos angle)%Q.
Definition arc_y (cy r : Q) (angle : Z) : Z := jsround (cy + r * msin angle)%Q.

Definition drawCloudShape (width x y w h : Z) : list write :=
  let cx1 := (inject_Z x + inject_Z w * (3 # 10))%Q in
  let cy1 := (inject_Z y + inject_Z h * (4 # 10))%Q in
  let r1 := (inject_Z h * (4 # 10))%Q in
  let cx2 := (inject_Z x + inject_Z w * (6 # 10))%Q in
  let cy2 := (inject_Z y + inject_Z h * (3 # 10))%Q in
  let r2 := (inject_Z h * (5 # 10))%Q in
  let cx3 := (inject_Z x + inject_Z w * (8 # 10))%Q in
  let cy3 := (inject_Z y + inject_Z h * (5 # 10))%Q in
  let r3 := (inject_Z h * (35 # 100))%Q in
  let point cx cy r angle :=
    let px := arc_x cx r angle in
    let py := arc_y cy r angle in
    if (0 <=? px) && (px <? width) && (0 <=? py)
    then [(py * width + px, INK_BLACK)] else [] in
  flat_map (fun k =>
    let angle := 180 + 3 * k in
    point cx1 cy1 r1 angle ++ point cx2 cy2 r2 angle ++ point cx3 cy3 r3 angle)
    (zseq 0 61)
  ++ drawHLine width (jsround (inject_Z y + inject_Z h * (75 # 100))%Q)
       (jsround (inject_Z x + inject_Z w * (1 # 10))%Q)
       (jsround (inject_Z x + inject_Z w * (95 # 100))%Q) INK_BLACK 1.

Definition sun_writes (width x y : Z) : list write :=
  let cx := inject_Z (x + 24) in
  let cy := inject_Z (y + 24) in
  let r := 14 in
  flat_map (fun k =>
    let angle := 5 * k in
    let px := arc_x cx (inject_Z r) angle in
    let py := arc_y cy (inject_Z r) angle in
    if (0 <=? px) && (px <? width) then [(py * width + px, INK_BLACK)] else [])
    (zseq 0 72)
  ++ flat_map (fun i =>
    let angle := i * 45 in
    let x1 := arc_x cx (inject_Z (r + 4)) angle in
    let y1 := arc_y cy (inject_Z (r + 4)) angle in
    let x2 := arc_x cx (inject_Z (r + 10)) angle in
    let y2 := arc_y cy (inject_Z (r + 10)) angle in
    flat_map (fun t =>
      let px := jsround (inject_Z x1 + inject_Z ((x2 - x1) * t) / inject_Z 10)%Q in
      let py := jsround (inject_Z y1 + inject_Z ((y2 - y1) * t) / inject_Z 10)%Q in
      if (0 <=? px) && (px <? width) && (0 <=? py) then [(py * width + px, INK_BLACK)] else [])
      (zseq 0 11))
    (zseq 0 8).

Definition drawWeatherIcon (width x y code : Z) : list write :=
  let size := 48 in
  match icon_of_code code with
  | Sun => sun_writes width x y
  | Cloud => drawCloudShape width (x + 8) (y + 16) 32 20
  | Fog =>
      flat_map (fun i => drawHLine width (y + 12 + i * 10) (x + 4) (x + size - 4) DARK_GRAY 2)
        (zseq 0 4)
  | Rain =>
      drawCloudShape width (x + 8) (y + 8) 32 16
      ++ flat_map (fun i =>
           let dx := x + 14 + i * 10 in
           let dy := y + 32 in
           map (fun j => ((dy + j) * width + dx, INK_BLACK)) (zseq 0 8))
           (zseq 0 3)
  | Snow =>
      drawCloudShape width (x + 8) (y + 8) 32 16
      ++ flat_map (fun i =>
           let sx := x + 14 + i * 10 in
           let sy := y + 36 in
           [(sy * width + sx, INK_BLACK); ((sy - 2) * width + sx, INK_BLACK);
            ((sy + 2) * width + sx, INK_BLACK); (sy * width + sx - 2, INK_BLACK);
            (sy * width + sx + 2, INK_BLACK)])
           (zseq 0 3)
  | Thunderstorm =>
      drawCloudShape width (x + 8) (y + 4) 32 16
      ++ flat_map (fun i =>
           let px := x + 24 + (if i <? 6 then - i else i - 12) in
           let py := y + 24 + i * 2 in
           [(py * width + px, INK_BLACK); (py * width + px + 1, INK_BLACK)])
           (zseq 0 12)
  | UnknownIcon => drawText width (x + 16) (y + 16) (js "?") INK_BLACK 3
  end.

Definition cmd_writes (width : Z) (c : cmd) : list write :=
  match c with
  | CText x y t color scale => drawText width x y t color scale
  | CHLine y x1 x2 color thickness => drawHLine width y x1 x2 color thickness
  | CDashed y x1 x2 color dashLen gapLen => drawDashedHLine width y x1 x2 color dashLen gapLen
  | CIcon x y code => drawWeatherIcon width x y code
  end.

Definition render_writes (width height : Z) (weather : WeatherData)
    (days : list DayEvents) (generatedAt : GeneratedAt) : list write :=
  flat_map (cmd_writes width) (render_cmds width height weather days generatedAt).

(** [renderDisplay]: [new Uint8Array(width * height)] throws a
    [RangeError] on a negative length ([None]). *)
Definition renderDisplay (width height : Z) (weather : WeatherData)
    (days : list DayEvents) (generatedAt : GeneratedAt) : option buf :=
  if width * height <? 0 then None
  else Some (apply_writes (buf_fill (width * height) PAPER_WHITE)
               (render_writes width height weather days generatedAt)).

End Render.

(** ** BMP encoder *)

(** [view.setUint32/setInt32/setUint16(off, v, true)]: [n] little-endian
    bytes of [v] modulo [2^(8n)] (two's complement for a negative [v]). *)
Definition le_bytes (off : Z) (n : nat) (v : Z) : list write :=
  map (fun k => (off + k, (v / 2 ^ (8 * k)) mod 256)) (zseq 0 (Z.of_nat n)).

(** [pixelData[i]]: [undefined] past the end, stored as 0. *)
Definition u8_at (pixelData : list Z) (i : Z) : Z :=
  if 0 <=? i then nth (Z.to_nat i) pixelData 0 else 0.

(** The palette loop of [createBMP]. *)
Definition bmp_palette (paletteOffset : Z) : list write :=
  flat_map (fun i =>
    [(paletteOffset + i * 4 + 0, i); (paletteOffset + i * 4 + 1, i);
     (paletteOffset + i * 4 + 2, i); (paletteOffset + i * 4 + 3, 0)])
    (zseq 0 256).

(** The pixel loop of [createBMP]. *)
Definition bmp_pixels (pixelOffset paddedRowSize width height : Z) (pixelData : list Z)
  : list write :=
  flat_map (fun y =>
    map (fun x => (pixelOffset + y * paddedRowSize + x, u8_at pixelData (y * width + x)))
      (zseq 0 width))
    (zseq 0 height).

(** [createBMP]: [None] when [new Uint8Array(fileSize)] or a header store
    of the [DataView] throws a [RangeError] (a length below 54).
    [Math.ceil(width / 4)] is exact on integers. *)
Definition createBMP (width height : Z) (pixelData : list Z) : option buf :=
  let paddedRowSize := Qceiling (inject_Z width / inject_Z 4) * 4 in
  let pixelDataSize := paddedRowSize * height in
  let paletteSize := 256 * 4 in
  let headerSize := 14 in
  let dibHeaderSize := 40 in
  let fileSize := headerSize + dibHeaderSize + paletteSize + pixelDataSize in
  if fileSize <? 54 then None
  else
    let header :=
      [(0, 0x42); (1, 0x4D)]
      ++ le_bytes 2 4 fileSize
      ++ le_bytes 6 4 0
      ++ le_bytes 10 4 (headerSize + dibHeaderSize + paletteSize)
      ++ le_bytes 14 4 dibHeaderSize
      ++ le_bytes 18 4 width
      ++ le_bytes 22 4 (- height)
      ++ le_bytes 26 2 1
      ++ le_bytes 28 2 8
      ++ le_bytes 30 4 0
      ++ le_bytes 34 4 pixelDataSize
      ++ le_bytes 38 4 2835
      ++ le_bytes 42 4 2835
      ++ le_bytes 46 4 256
      ++ le_bytes 50 4 256 in
    let paletteOffset := headerSize + dibHeaderSize in
    let pixelOffset := headerSize + dibHeaderSize + paletteSize in
    Some (apply_writes (buf_fill fileSize 0)
            (header ++ bmp_palette paletteOffset
             ++ bmp_pixels pixelOffset paddedRowSize width height pixelData)).

(** ** Canvas dimensions of the request handler *)

(** The white space [parseInt] skips (ECMAScript WhiteSpace and
    LineTerminator). *)
Definition is_js_space (u : Z) : bool :=
  existsb (Z.eqb u) [9; 10; 11; 12; 13; 32; 160; 0x1680; 0x2028; 0x2029; 0x202F; 0x205F; 0x3000; 0xFEFF]
  || ((0x2000 <=? u) && (u <=? 0x200A)).

Fixpoint trim_start (s : jsstr) : jsstr :=
  match s with
  | u :: r => if is_js_space u then trim_start r else s
  | [] => []
  end.

Definition digit_value (u : Z) : Z :=
  if (48 <=? u) && (u <=? 57) then u - 48
  else if (97 <=? u) && (u <=? 122) then u - 87
  else if (65 <=? u) && (u <=? 90) then u - 55
  else 36.

Fixpoint digits_prefix (radix : Z) (s : jsstr) : list Z :=
  match s with
  | u :: r => if digit_value u <? radix then digit_value u :: digits_prefix radix r else []
  | [] => []
  end.

Definition digits_to_Z (radix : Z) (ds : list Z) : Z :=
  fold_left (fun acc d => acc * radix + d) ds 0.

(** [parseInt(s)] with no radix; [None] is [NaN].  The value is kept
    exact: it is the number JavaScript returns for magnitudes up to [2^53],
    which doubles hold exactly; beyond that a double rounds (and overflows
    to [Infinity] past about [1.8e308]), which changes neither its sign nor
    whether it is zero. *)
Definition parseInt (s : jsstr) : option Z :=
  let s1 := trim_start s in
  let '(sign, s2) :=
    match s1 with
    | 45 :: r => (-1, r)
    | 43 :: r => (1, r)
    | _ => (1, s1)
    end in
  let '(radix, s3) :=
    match s2 with
    | 48 :: x :: r => if (x =? 120) || (x =? 88) then (16, r) else (10, s2)
    | _ => (10, s2)
    end in
  match digits_prefix radix s3 with
  | [] => None
  | ds => Some (sign * digits_to_Z radix ds)
  end.

(** [parseInt(env.X) || dflt]: a missing binding reads as [undefined],
    whose string is ["undefined"]; [NaN] and [0] are falsy. *)
Definition config_dim (v : option jsstr) (dflt : Z) : Z :=
  match parseInt (match v with Some s => s | None => js "undefined" end) with
  | None => dflt
  | Some z => if z =? 0 then dflt else z
  end.

Definition display_width (v : option jsstr) : Z := config_dim v 480.
Definition display_height (v : option jsstr) : Z := config_dim v 800.

(** Sample inputs: a rainy forecast, a fixed timestamp and [Math.cos] /
    [Math.sin] replaced by the constant 0 (any choice of them will do for
    the statements they instantiate). *)
Definition rainy : WeatherData :=
  {| temperature := 72; temperatureHigh := 75; temperatureLow := 60;
     condition := js "Rain"; conditionCode := 61 |}.

Definition noon : GeneratedAt :=
  {| getDay := 3; getMonth := 9; getDate := 14; localeTimeString := js "12:00" |}.

Definition trig0 : Z -> Q := fun _ => 0%Q.

(** Rows strictly below the date-header rule (rows 250 and 251) and above
    the footer rule (row [height - 40]). *)
Definition in_agenda_area (width height i : Z) : bool :=
  (252 <=? i / width) && (i / width <? height - 40).

(** A sample day with 50 events, more than fit on an 800-pixel canvas. *)
Definition busy_day : DayEvents :=
  {| label := js "TODAY";
     events := repeat {| time := js "09:00"; title := js "Standup"; isAllDay := false |} 50 |}.

(** The range table of the spec, written from its words. *)
Definition spec_icon (code : Z) : icon :=
  if (0 <=? code) && (code <=? 1) then Sun
  else if (2 <=? code) && (code <=? 3) then Cloud
  else if (45 <=? code) && (code <=? 48) then Fog
  else if ((51 <=? code) && (code <=? 67)) || ((80 <=? code) && (code <=? 82)) then Rain
  else if ((71 <=? code) && (code <=? 77)) || ((85 <=? code) && (code <=? 86)) then Snow
  else if 95 <=? code then Thunderstorm
  else UnknownIcon.

(** The value of the last store to index [j] in a log. *)
Fixpoint last_write (j : Z) (ws : list write) : option Z :=
  match ws with
  | [] => None
  | (i, v) :: r =>
      match last_write j r with
      | Some x => Some x
      | None => if i =? j then Some v else None
      end
  end.

(** What the claim requires of an encoded image of [width x height]:
    its length, the height field, bit count, compression and palette. *)
Definition bmp_layout (width height : Z) (b : buf) : Prop :=
  blen b = 14 + 40 + 256 * 4 + (Qceiling (inject_Z width / inject_Z 4) * 4) * height /\
  map (bget b) (zseq 22 4) = map (fun k => (- height / 2 ^ (8 * k)) mod 256) (zseq 0 4) /\
  map (bget b) (zseq 28 2) = [8; 0] /\
  map (bget b) (zseq 30 4) = [0; 0; 0; 0] /\
  (forall i, 0 <= i < 256 -> map (bget b) (zseq (54 + 4 * i) 4) = [i; i; i; 0]).

Definition site_day (s : site) : nat :=
  match s with
  | SSep d | SLabel d | SNoEvents d | STime d _ | STitle d _ | SDivider d _ | SMore d => d
  end.

Definition is_more (s : site) : bool := match s with SMore _ => true | _ => false end.

Definition no_more (l : list site) : bool := forallb (fun s => negb (is_more s)) l.

(** The number of event titles of day [d] painted in a trace. *)
Definition count_titles (d : nat) (l : list site) : nat :=
  length (filter (fun s => match s with STitle d' _ => Nat.eqb d' d | _ => false end) l).

Definition levels : list Z := [INK_BLACK; DARK_GRAY; LIGHT_GRAY; PAPER_WHITE].

(** The colour a command paints with is one of the four levels. *)
Definition cmd_ok (c : cmd) : Prop :=
  match c with
  | CText _ _ _ color _ | CHLine _ _ _ color _ | CDashed _ _ _ color _ _ => In color levels
  | CIcon _ _ _ => True
  end.

(** ** Reading back the BMP header *)

(** An [n]-byte little-endian field at [off], as a BMP reader decodes it. *)
Fixpoint read_le (b : buf) (off : Z) (n : nat) : Z :=
  match n with
  | O => 0
  | S n => bget b off + 256 * read_le b (off + 1) n
  end.

(** [paddedRowSize] of [createBMP], with [Math.ceil(width / 4)] exact. *)
Definition bmp_row_size (width : Z) : Z := (width + 3) / 4 * 4.

(** The header writes of [createBMP], once [paddedRowSize] is computed. *)
Definition bmp_header (width height : Z) : list write :=
  [(0, 0x42); (1, 0x4D)]
  ++ le_bytes 2 4 (1078 + bmp_row_size width * height)
  ++ le_bytes 6 4 0
  ++ le_bytes 10 4 1078
  ++ le_bytes 14 4 40
  ++ le_bytes 18 4 width
  ++ le_bytes 22 4 (- height)
  ++ le_bytes 26 2 1
  ++ le_bytes 28 2 8
  ++ le_bytes 30 4 0
  ++ le_bytes 34 4 (bmp_row_size width * height)
  ++ le_bytes 38 4 2835
  ++ le_bytes 42 4 2835
  ++ le_bytes 46 4 256
  ++ le_bytes 50 4 256.

(** ** The request handler *)

(** The [Uint8Array] returned by [renderDisplay], read as [createBMP]
    reads [pixelData]. *)
Definition buf_list (b : buf) : list Z := map (bget b) (zseq 0 (blen b)).

(** [fetch]: the canvas size from the configuration, [renderDisplay], then
    [createBMP] on its pixels.  The weather and the days are what
    [fetchWeather] and [fetchCalendarEvents] resolved to, [generatedAt] is
    [new Date()]; [None] is an exception (a [RangeError] of a typed array). *)
Definition fetch_bmp (mcos msin : Z -> Q) (DISPLAY_WIDTH DISPLAY_HEIGHT : option jsstr)
    (weather : WeatherData) (days : list DayEvents) (generatedAt : GeneratedAt) : option buf :=
  let width := display_width DISPLAY_WIDTH in
  let height := display_height DISPLAY_HEIGHT in
  match renderDisplay mcos msin width height weather days generatedAt with
  | Some pixels => createBMP width height (buf_list pixels)
  | None => None
  end.

(** ** Weather condition names *)

Definition WMO_CODES : list (Z * jsstr) :=
  [(0, js "Clear"); (1, js "Mostly Clear"); (2, js "Partly Cloudy"); (3, js "Overcast");
   (45, js "Foggy"); (48, js "Rime Fog"); (51, js "Light Drizzle"); (53, js "Drizzle");
   (55, js "Heavy Drizzle"); (61, js "Light Rain"); (63, js "Rain"); (65, js "Heavy Rain");
   (66, js "Freezing Rain"); (67, js "Heavy Freezing Rain"); (71, js "Light Snow");
   (73, js "Snow"); (75, js "Heavy Snow"); (77, js "Snow Grains"); (80, js "Light Showers");
   (81, js "Showers"); (82, js "Heavy Showers"); (85, js "Light Snow Showers");
   (86, js "Snow Showers"); (95, js "Thunderstorm"); (96, js "Thunderstorm + Hail");
   (99, js "Severe Thunderstorm")].

(** [WMO_CODES[code]]: [None] is [undefined]. *)
Definition wmo_lookup (code : Z) : option jsstr :=
  option_map snd (find (fun p => fst p =? code) WMO_CODES).

(** The [condition] field of [fetchWeather]: [WMO_CODES[code] || 'Unknown']. *)
Definition weather_condition (code : Z) : jsstr :=
  match wmo_lookup code with
  | Some ((_ :: _) as s) => s
  | _ => js "Unknown"
  end.

(** ** Calendar events *)

(** What [fetchCalendarEvents] uses of [Date]: [new Date(string)],
    [toDateString()], [toLocaleTimeString('en-US', {hour: '2-digit',
    minute: '2-digit', hour12: false, timeZone: TIMEZONE})] and [getDay()]
    ([None] is the [NaN] of an invalid date). *)
Class DateAPI (Date : Type) := {
  new_Date : jsstr -> Date;
  toDateString : Date -> jsstr;
  toLocaleTimeString : Date -> jsstr;
  date_getDay : Date -> option Z
}.

(** [item.start]; a missing field is [None]. *)
Record StartObj := { start_dateTime : option jsstr; start_date : option jsstr }.

(** An element of [data.items]; a missing [start] makes [item.start.dateTime]
    throw a [TypeError]. *)
Record Item := { summary : option jsstr; start : option StartObj }.

(** The truthiness of a possibly missing string ([undefined] and [''] are falsy). *)
Definition truthy (o : option jsstr) : bool :=
  match o with Some (_ :: _) => true | _ => false end.

(** [o || d] on a possibly missing string. *)
Definition str_or (o : option jsstr) (d : jsstr) : jsstr :=
  match o with Some ((_ :: _) as s) => s | _ => d end.

Section CalendarModel.

Context {Date : Type} {api : DateAPI Date}.

(** [DayEvents] with its [date] field, which [fetchCalendarEvents] sorts by;
    [day_label] is [None] when [DAY_NAMES[date.getDay()]] is [undefined]. *)
Record DayEntry := { day_label : option jsstr; day_date : Date; day_events : list CalendarEvent }.

(** The body of the [for] loop over [data.items], up to the map update:
    [startDate] and [event]. *)
Definition make_event (item : Item) (st : StartObj) : Date * CalendarEvent :=
  let isAllDay := negb (truthy (start_dateTime st)) in
  let startStr := str_or (start_dateTime st) (str_or (start_date st) []) in
  let startDate := new_Date startStr in
  (startDate,
   {| title := str_or (summary item) (js "Untitled");
      time := if isAllDay then js "All Day" else toLocaleTimeString startDate;
      isAllDay := isAllDay |}).

(** [eventsByDate]: a [Map] keeps its keys in insertion order. *)
Definition EventMap := list (jsstr * (Date * list CalendarEvent)).

Definition map_has (k : jsstr) (m : EventMap) : bool := existsb (fun p => jsstr_eqb (fst p) k) m.

(** [eventsByDate.get(k)!.events.push(e)]. *)
Definition map_push (k : jsstr) (e : CalendarEvent) (m : EventMap) : EventMap :=
  map (fun p => if jsstr_eqb (fst p) k then (fst p, (fst (snd p), snd (snd p) ++ [e])) else p) m.

Definition group_step (m : EventMap) (startDate : Date) (event : CalendarEvent) : EventMap :=
  let eventDateStr := toDateString startDate in
  let m1 := if map_has eventDateStr m then m else m ++ [(eventDateStr, (startDate, []))] in
  map_push eventDateStr event m1.

(** The grouping loop; [None] is the [TypeError] of an item with no [start]. *)
Fixpoint group_loop (items : list Item) (m : EventMap) : option EventMap :=
  match items with
  | [] => Some m
  | item :: rest =>
      match start item with
      | None => None
      | Some st => let '(startDate, event) := make_event item st in
                   group_loop rest (group_step m startDate event)
      end
  end.

Definition getDayLabel (date : Date) (todayDate tomorrowDate : jsstr) : option jsstr :=
  let dateStr := toDateString date in
  if jsstr_eqb dateStr todayDate then Some (js "TODAY")
  else if jsstr_eqb dateStr tomorrowDate then Some (js "TOMORROW")
  else match date_getDay date with
       | Some n => if 0 <=? n then nth_error DAY_NAMES (Z.to_nat n) else None
       | None => None
       end.

(** [getMockEvents], at the instants [now] and [now + 86400000] it reads. *)
Definition getMockEvents (now tomorrow : Date) : list DayEntry :=
  [ {| day_label := Some (js "TODAY"); day_date := now;
       day_events :=
         [ {| time := js "09:00"; title := js "Team Standup"; isAllDay := false |};
           {| time := js "11:30"; title := js "Design Review"; isAllDay := false |};
           {| time := js "14:00"; title := js "Deep Work Block"; isAllDay := false |} ] |};
    {| day_label := Some (js "TOMORROW"); day_date := tomorrow;
       day_events := [ {| time := js "10:00"; title := js "Client Call"; isAllDay := false |} ] |} ].

Definition label_is_today (l : option jsstr) : bool :=
  match l with Some s => jsstr_eqb s (js "TODAY") | None => false end.

(** [fetchCalendarEvents].  [response] is what [fetch] and
    [response.json()] give: [None] when either throws or [!response.ok],
    else [data.items] ([None] when missing, for [data.items || []]).
    [sort_days] is [days.sort((a, b) => a.date.getTime() - b.date.getTime())],
    left abstract: its order is implementation-defined once a date is
    invalid.  [nowLocal] and [tomorrowLocal] are the two dates of the
    [try] block, [mockNow] and [mockTomorrow] those [getMockEvents] reads. *)
Definition fetchCalendarEvents (sort_days : list DayEntry -> list DayEntry)
    (GOOGLE_CALENDAR_API_KEY GOOGLE_CALENDAR_ID : option jsstr)
    (response : option (option (list Item)))
    (nowLocal tomorrowLocal mockNow mockTomorrow : Date) : list DayEntry :=
  if negb (truthy GOOGLE_CALENDAR_API_KEY) || negb (truthy GOOGLE_CALENDAR_ID)
  then getMockEvents mockNow mockTomorrow
  else
    match response with
    | None => getMockEvents mockNow mockTomorrow
    | Some items =>
        match group_loop (match items with Some l => l | None => [] end) [] with
        | None => getMockEvents mockNow mockTomorrow
        | Some eventsByDate =>
            let todayDate := toDateString nowLocal in
            let tomorrowDate := toDateString tomorrowLocal in
            let days := sort_days (map (fun p =>
                          {| day_label := getDayLabel (fst (snd p)) todayDate tomorrowDate;
                             day_date := fst (snd p); day_events := snd (snd p) |}) eventsByDate) in
            let today := {| day_label := Some (js "TODAY"); day_date := nowLocal; day_events := [] |} in
            match days with
            | first :: _ => if label_is_today (day_label first) then days else today :: days
            | [] => [today]
            end
        end
    end.

(** The [(startDate, event)] pairs of the items, in order. *)
Definition item_entries (items : list Item) : list (Date * CalendarEvent) :=
  flat_map (fun it => match start it with Some st => [make_event it st] | None => [] end) items.

(** An entry whose [toDateString()] is [k]. *)
Definition key_eq (k : jsstr) (p : Date * CalendarEvent) : bool := jsstr_eqb (toDateString (fst p)) k.

(** The invariant of the grouping loop after the entries [P]: the keys are
    distinct, each key holds the events of its date in order, every entry's
    date is a key, and no event is lost or duplicated. *)
Definition map_inv (m : EventMap) (P : list (Date * CalendarEvent)) : Prop :=
  NoDup (map fst m) /\
  (forall k d es, In (k, (d, es)) m ->
     toDateString d = k /\ es = map snd (filter (key_eq k) P) /\ es <> []) /\
  (forall p, In p P -> In (toDateString (fst p)) (map fst m)) /\
  Permutation (flat_map (fun q => snd (snd q)) m) (map snd P).

End CalendarModel.

Arguments DayEntry Date : clear implicits.

(** A sample [Date] for the witnesses: an ISO [YYYY-MM-DDTHH:MM] string, its
    date the first ten characters and its time the next five after [T]. *)
#[local] Instance iso_dates : DateAPI jsstr := {
  new_Date := fun s => s;
  toDateString := firstn 10;
  toLocaleTimeString := fun s => firstn 5 (skipn 11 s);
  date_getDay := fun _ => Some 3
}.

Fixpoint jsstr_leb (a b : jsstr) : bool :=
  match a, b with
  | [], _ => true
  | _ :: _, [] => false
  | x :: a', y :: b' => (x <? y) || ((x =? y) && jsstr_leb a' b')
  end.

(** A stable insertion sort by date, standing for [days.sort]. *)
Fixpoint insert_by_date (d : DayEntry jsstr) (l : list (DayEntry jsstr)) : list (DayEntry jsstr) :=
  match l with
  | [] => [d]
  | e :: r => if jsstr_leb (day_date d) (day_date e) then d :: e :: r else e :: insert_by_date d r
  end.

Definition sort_by_date (l : list (DayEntry jsstr)) : list (DayEntry jsstr) :=
  fold_right insert_by_date [] l.

Definition sample_start (dt d : option jsstr) : option StartObj :=
  Some {| start_dateTime := dt; start_date := d |}.

Definition sample_items : list Item :=
  [ {| summary := Some (js "Standup"); start := sample_start (Some (js "2026-10-15T09:00")) None |};
    {| summary := None; start := sample_start None (Some (js "2026-10-14")) |};
    {| summary := Some (js "Lunch"); start := sample_start (Some (js "2026-10-15T13:00")) None |} ].

(** * Properties *)


(** ** Sanity checks on small inputs *)

Example Z_to_js_72 : Z_to_js 72 = js "72". Proof. reflexivity. Qed.
Example Z_to_js_neg : Z_to_js (-5) = js "-5". Proof. reflexivity. Qed.
Example parseInt_hex : parseInt (js "0x1F") = Some 31. Proof. reflexivity. Qed.
Example parseInt_undefined : parseInt (js "undefined") = None. Proof. reflexivity. Qed.
Example glyph_A_writes : length (drawText 480 0 0 (js "A") INK_BLACK 1) = 28%nat.
Proof. reflexivity. Qed.
Example truncate_short_budget : truncateTitle 10 (js "Hello World") = js "...".
Proof. reflexivity. Qed.

(** ** Weather icon dispatch *)

Ltac decide_Z_tests :=
  repeat match goal with
         | |- context [?a =? ?b] => destruct (Z.eqb_spec a b)
         | |- context [?a <=? ?b] => destruct (Z.leb_spec a b)
         end; simpl; try reflexivity; try lia.

(** C4: for every integer condition code the branch [drawWeatherIcon]
    takes is the one of the range table (sun 0-1, cloud 2-3, fog 45-48,
    rain 51-67 and 80-82, snow 71-77 and 85-86, thunderstorm from 95,
    the unknown icon otherwise, the sentinel -1 included); the dispatch is
    a total function, so no code makes it fail. *)
Theorem icon_dispatch_table :
  (forall code, icon_of_code code = spec_icon code) /\ icon_of_code (-1) = UnknownIcon.
Proof.
  split; [| reflexivity].
  intro code; unfold icon_of_code, spec_icon.
  replace ((code =? 0) || (code =? 1)) with ((0 <=? code) && (code <=? 1));
    [reflexivity | decide_Z_tests].
Qed.

(** ** Title truncation *)

Lemma trunc_step_length (m : Z) (t : jsstr) :
  title_cond m t = true -> (4 <= length t)%nat /\ length (trunc_step t) = pred (length t).
Proof.
  unfold title_cond, trunc_step, slice_0_m4.
  intro H; apply andb_true_iff in H as [_ H]; apply Z.ltb_lt in H.
  rewrite length_app, firstn_length_le by lia; simpl; lia.
Qed.

Lemma truncate_loop_exit (m : Z) : forall fuel t,
  (length t <= fuel + 3)%nat ->
  title_cond m (truncate_loop fuel m t) = false /\
  exists n, (n <= fuel)%nat /\ truncate_loop fuel m t = Nat.iter n trunc_step t /\
    forall k, (k < n)%nat -> title_cond m (Nat.iter k trunc_step t) = true.
Proof.
  induction fuel as [| f IH]; intros t Hlen; simpl.
  - split.
    + unfold title_cond; apply andb_false_iff; right; apply Z.ltb_ge; lia.
    + exists O; split; [lia | split; [reflexivity | intros; lia]].
  - destruct (title_cond m t) eqn:Hc.
    + destruct (trunc_step_length m t Hc) as [H4 Hs].
      destruct (IH (trunc_step t)) as [Hf [n [Hn [Heq Hk]]]]; [lia |].
      split; [exact Hf |].
      exists (S n); split; [lia | split].
      * rewrite Heq, Nat.iter_succ_r; reflexivity.
      * intros [| k] Hk'; [exact Hc |].
        rewrite Nat.iter_succ_r; apply Hk; lia.
    + split; [exact Hc |].
      exists O; split; [lia | split; [reflexivity | intros; lia]].
Qed.

(** C7: the truncation loop terminates: from any title it stops after at
    most [length title] iterations, at a string where the loop condition
    is false; every iteration it performs starts from a string of at least
    4 code units, so [slice(0, -4)] never has to cut below index 0, and
    shortens the string by exactly one unit. *)
Theorem truncate_terminates (maxTitleWidth : Z) (t : jsstr) :
  title_cond maxTitleWidth (truncateTitle maxTitleWidth t) = false /\
  exists n, (n <= length t)%nat /\
    truncateTitle maxTitleWidth t = Nat.iter n trunc_step t /\
    forall k, (k < n)%nat ->
      let u := Nat.iter k trunc_step t in
      title_cond maxTitleWidth u = true /\ (4 <= length u)%nat /\
      length (trunc_step u) = pred (length u).
Proof.
  destruct (truncate_loop_exit maxTitleWidth (length t) t) as [Hf [n [Hn [Heq Hk]]]]; [lia |].
  split; [exact Hf |].
  exists n; split; [exact Hn | split; [exact Heq |]].
  intros k Hlt; cbv zeta.
  pose proof (Hk k Hlt) as Hc.
  split; [exact Hc | exact (trunc_step_length _ _ Hc)].
Qed.

Lemma truncate_fixed (m : Z) (t : jsstr) :
  title_cond m t = false -> truncateTitle m t = t.
Proof.
  unfold truncateTitle; destruct (length t); simpl; [reflexivity |].
  intros ->; reflexivity.
Qed.

(** C8: truncation is idempotent: when the truncated title measures at
    most the available width, truncating it again returns it unchanged. *)
Theorem truncate_idempotent (maxTitleWidth : Z) (t : jsstr)
    (Hfit : getTextWidth (truncateTitle maxTitleWidth t) 2 <= maxTitleWidth) :
  truncateTitle maxTitleWidth (truncateTitle maxTitleWidth t) = truncateTitle maxTitleWidth t.
Proof.
  apply truncate_fixed; unfold title_cond.
  apply andb_false_iff; left; rewrite Z.gtb_ltb; apply Z.ltb_ge; lia.
Qed.

Lemma truncate_idempotent_witness :
  getTextWidth (truncateTitle 80 (js "Quarterly planning session")) 2 <= 80 /\
  truncateTitle 80 (truncateTitle 80 (js "Quarterly planning session"))
  = truncateTitle 80 (js "Quarterly planning session").
Proof.
  split; [vm_compute; discriminate | apply truncate_idempotent; vm_compute; discriminate].
Defined.

(** ** Canvas dimensions *)

(** C6 (counterexample): a negative configured width is not replaced by
    the default: [parseInt("-5") || 480] is [-5]. *)
Lemma display_width_negative_kept :
  parseInt (js "-5") = Some (-5) /\ display_width (Some (js "-5")) = -5.
Proof. split; reflexivity. Qed.

Lemma config_dim_nonzero (v : option jsstr) (dflt : Z) : dflt <> 0 -> config_dim v dflt <> 0.
Proof.
  unfold config_dim; destruct (parseInt _) as [z |]; [| auto].
  destruct (Z.eqb_spec z 0); auto.
Qed.

(** C6 (amended): a missing value, a value [parseInt] reads as [NaN] and
    a value it reads as 0 fall back to 480 (width) and 800 (height); any
    other parsed integer, negative ones included, is used as is; hence no
    dimension is ever 0 and [width * height] is never 0. *)
Theorem display_dims_fallback :
  display_width None = 480 /\ display_height None = 800 /\
  (forall s, parseInt s = None \/ parseInt s = Some 0 ->
     display_width (Some s) = 480 /\ display_height (Some s) = 800) /\
  (forall s z, parseInt s = Some z -> z <> 0 ->
     display_width (Some s) = z /\ display_height (Some s) = z) /\
  (forall vw vh, display_width vw * display_height vh <> 0).
Proof.
  split; [reflexivity | split; [reflexivity | split; [| split]]].
  - intros s [H | H]; unfold display_width, display_height, config_dim; rewrite H;
      split; reflexivity.
  - intros s z H Hz; unfold display_width, display_height, config_dim; rewrite H.
    apply Z.eqb_neq in Hz; rewrite Hz; split; reflexivity.
  - intros vw vh.
    pose proof (config_dim_nonzero vw 480 ltac:(lia)).
    pose proof (config_dim_nonzero vh 800 ltac:(lia)).
    unfold display_width, display_height; lia.
Qed.

Lemma display_dims_fallback_witness :
  (display_width (Some (js "0")) = 480 /\ display_height (Some (js "0")) = 800) /\
  (display_width (Some (js "-5")) = -5 /\ display_height (Some (js "-5")) = -5).
Proof.
  split.
  - apply (proj1 (proj2 (proj2 display_dims_fallback))); right; reflexivity.
  - apply (proj1 (proj2 (proj2 (proj2 display_dims_fallback))) (js "-5") (-5));
      [reflexivity | lia].
Defined.

(** ** Text measurement *)

Lemma drawText_loop_cursor (width y color scale : Z) : forall cps cx,
  snd (drawText_loop width cx y cps color scale) = cx + 8 * scale * Z.of_nat (length cps).
Proof.
  induction cps as [| c rest IH]; intro cx; [simpl; lia |].
  cbn [drawText_loop length].
  specialize (IH (cx + 8 * scale)).
  destruct (drawText_loop width (cx + 8 * scale) y rest color scale) as [ws cx'].
  cbn [snd] in *; rewrite Nat2Z.inj_succ; nia.
Qed.

Lemma code_points_bmp : forall t,
  forallb (fun u => negb (is_high_surrogate u)) t = true -> length (code_points t) = length t.
Proof.
  induction t as [| u r IH]; simpl; [reflexivity |].
  intro H; apply andb_true_iff in H as [Hu Hr].
  apply negb_true_iff in Hu; rewrite Hu; simpl; rewrite IH; auto.
Qed.

Lemma code_points_no_astral : forall t,
  no_astral t = true -> length (code_points t) = length t.
Proof.
  induction t as [| u r IH]; [reflexivity |].
  intro H; cbn [code_points length].
  assert (Hr : no_astral r = true)
    by (destruct r as [| l r']; [reflexivity | apply andb_true_iff in H as [_ H]; exact H]).
  destruct (is_high_surrogate u) eqn:Hu.
  - destruct r as [| l r']; [reflexivity |].
    assert (Hl : is_low_surrogate l = false).
    { apply andb_true_iff in H as [H _]; rewrite Hu in H; cbn in H.
      destruct (is_low_surrogate l); [discriminate | reflexivity]. }
    rewrite Hl; cbn [length]; rewrite IH by exact Hr; reflexivity.
  - cbn [length]; rewrite IH by exact Hr; reflexivity.
Qed.

(** C5 (counterexample): for the one-character string U+1F600 (two UTF-16
    code units) the measured width at scale 1 is 16, but [drawText]
    advances the cursor by 8 only. *)
Lemma text_width_astral :
  getTextWidth [0xD83D; 0xDE00] 1 = 16 /\
  snd (drawText_loop 480 0 0 (code_points [0xD83D; 0xDE00]) INK_BLACK 1) = 8.
Proof. split; reflexivity. Qed.

(** C5 (amended): the measured width is the number of UTF-16 code units
    times [8 * scale]; drawing advances the cursor by [8 * scale] per
    code point; the two agree (a string of [n] units is drawn over
    [8 * scale * n] columns) for every string without characters outside
    the BMP ([no_astral]: lone surrogates included), such as any string
    of font glyphs. *)
Theorem text_width_advance (width x y color scale : Z) (t : jsstr) :
  getTextWidth t scale = Z.of_nat (length t) * 8 * scale /\
  snd (drawText_loop width x y (code_points t) color scale)
    = x + 8 * scale * Z.of_nat (length (code_points t)) /\
  (no_astral t = true ->
   snd (drawText_loop width x y (code_points t) color scale) = x + getTextWidth t scale).
Proof.
  split; [reflexivity | split; [apply drawText_loop_cursor |]].
  intro H; rewrite drawText_loop_cursor, code_points_no_astral by exact H.
  unfold getTextWidth; lia.
Qed.

Lemma text_width_advance_witness :
  snd (drawText_loop 480 24 30 (code_points (0xD800 :: js "72")) INK_BLACK 10)
  = 24 + getTextWidth (0xD800 :: js "72") 10.
Proof.
  apply (proj2 (proj2 (text_width_advance 480 24 30 INK_BLACK 10 (0xD800 :: js "72")))).
  reflexivity.
Defined.

(** ** Buffers: the value left by a write log *)

Lemma blen_apply_writes : forall ws b, blen (apply_writes b ws) = blen b.
Proof.
  induction ws as [| [i v] r IH]; intro b; simpl; [reflexivity |].
  rewrite IH; unfold store; destruct (_ && _); reflexivity.
Qed.

Lemma bget_apply_writes : forall ws b j, 0 <= j < blen b ->
  bget (apply_writes b ws) j =
  match last_write j ws with Some v => v mod 256 | None => bget b j end.
Proof.
  induction ws as [| [i v] r IH]; intros b j Hj; simpl; [reflexivity |].
  assert (Hl : 0 <= j < blen (store b i v)) by (unfold store; destruct (_ && _); exact Hj).
  rewrite (IH _ _ Hl).
  destruct (last_write j r); [reflexivity |].
  unfold store.
  destruct (Z.eqb_spec i j) as [-> |].
  - replace ((0 <=? j) && (j <? blen b)) with true by (symmetry; apply andb_true_iff; lia).
    simpl; rewrite Z.eqb_refl; reflexivity.
  - destruct (_ && _); simpl; [| reflexivity].
    destruct (Z.eqb_spec j i); [lia | reflexivity].
Qed.

Lemma last_write_app (j : Z) (l1 l2 : list write) :
  last_write j (l1 ++ l2) =
  match last_write j l2 with Some x => Some x | None => last_write j l1 end.
Proof.
  induction l1 as [| [i v] r IH]; simpl.
  - destruct (last_write j l2); reflexivity.
  - rewrite IH; destruct (last_write j l2); reflexivity.
Qed.

Lemma last_write_none (j : Z) (ws : list write) :
  (forall w, In w ws -> fst w <> j) -> last_write j ws = None.
Proof.
  induction ws as [| [i v] r IH]; intro H; simpl; [reflexivity |].
  rewrite IH by (intros w Hw; apply H; right; exact Hw).
  destruct (Z.eqb_spec i j); [| reflexivity].
  exfalso; apply (H (i, v)); [left; reflexivity | exact e].
Qed.

Lemma in_zseq (a n k : Z) : In k (zseq a n) <-> a <= k < a + n.
Proof.
  unfold zseq; rewrite in_map_iff; split.
  - intros [m [<- Hm]]; apply in_seq in Hm; lia.
  - intro H; exists (Z.to_nat (k - a)); split; [lia |].
    apply in_seq; lia.
Qed.

(** ** BMP layout *)

Lemma ceil_div4 (w : Z) : Qceiling (inject_Z w / inject_Z 4) = (w + 3) / 4.
Proof.
  unfold Qceiling, Qfloor; simpl.
  rewrite Z.mul_1_r.
  pose proof (Z.div_mod (- w) 4 ltac:(lia)); pose proof (Z.mod_pos_bound (- w) 4 ltac:(lia)).
  pose proof (Z.div_mod (w + 3) 4 ltac:(lia)); pose proof (Z.mod_pos_bound (w + 3) 4 ltac:(lia)).
  lia.
Qed.

Lemma palette_bytes :
  forallb (fun i =>
    match last_write (54 + 4 * i) (bmp_palette 54), last_write (55 + 4 * i) (bmp_palette 54),
          last_write (56 + 4 * i) (bmp_palette 54), last_write (57 + 4 * i) (bmp_palette 54) with
    | Some a, Some b, Some c, Some d => (a =? i) && (b =? i) && (c =? i) && (d =? 0)
    | _, _, _, _ => false
    end) (zseq 0 256) = true.
Proof. vm_compute; reflexivity. Qed.

Lemma bmp_palette_index (w : write) : In w (bmp_palette 54) -> 54 <= fst w < 1078.
Proof.
  unfold bmp_palette; rewrite in_flat_map; intros [i [Hi Hw]].
  apply in_zseq in Hi.
  destruct Hw as [<- | [<- | [<- | [<- | []]]]]; cbn [fst]; lia.
Qed.

Lemma bmp_pixels_index (pw h : Z) (px : list Z) (w : write) :
  In w (bmp_pixels 1078 (Qceiling (inject_Z pw / inject_Z 4) * 4) pw h px) -> 1078 <= fst w.
Proof.
  unfold bmp_pixels; rewrite in_flat_map; intros [y [Hy Hw]].
  apply in_map_iff in Hw as [x [<- Hx]].
  apply in_zseq in Hy; apply in_zseq in Hx; cbn [fst].
  rewrite ceil_div4.
  assert (0 <= (pw + 3) / 4) by (apply Z.div_pos; lia).
  assert (0 <= y * ((pw + 3) / 4 * 4)) by (apply Z.mul_nonneg_nonneg; lia).
  lia.
Qed.

Lemma bmp_bget (hdr pal pix : list write) (n j : Z) :
  0 <= j < n -> (forall w, In w pix -> fst w <> j) ->
  bget (apply_writes (buf_fill n 0) (hdr ++ pal ++ pix)) j =
  match last_write j pal with
  | Some v => v mod 256
  | None => match last_write j hdr with Some v => v mod 256 | None => 0 end
  end.
Proof.
  intros Hj Hpix.
  rewrite bget_apply_writes by exact Hj.
  rewrite !last_write_app, (last_write_none j pix Hpix).
  destruct (last_write j pal); [reflexivity |].
  destruct (last_write j hdr); reflexivity.
Qed.

Lemma last_write_le_bytes (j off v : Z) (n : nat) :
  last_write j (le_bytes off n v) =
  if (off <=? j) && (j <? off + Z.of_nat n) then Some ((v / 2 ^ (8 * (j - off))) mod 256) else None.
Proof.
  unfold le_bytes, zseq; rewrite Nat2Z.id.
  induction n as [| n IH].
  - simpl. destruct (off <=? j) eqn:E1; destruct (j <? off + 0) eqn:E2; try reflexivity.
    apply Z.leb_le in E1; apply Z.ltb_lt in E2; lia.
  - rewrite seq_S, !map_app, last_write_app, IH.
    cbn [map last_write]; rewrite Nat.add_0_l.
    destruct (Z.eqb_spec (off + (0 + Z.of_nat n)) j) as [Heq | Hne].
    +
      replace ((off <=? j) && (j <? off + Z.of_nat (S n))) with true
        by (symmetry; apply andb_true_iff; split; [apply Z.leb_le | apply Z.ltb_lt]; lia).
      replace (j - off) with (0 + Z.of_nat n) by lia; reflexivity.
    +
      destruct (off <=? j) eqn:E1; destruct (j <? off + Z.of_nat n) eqn:E2;
        destruct (j <? off + Z.of_nat (S n)) eqn:E3; cbn [andb]; try reflexivity;
        repeat match goal with H : (_ <=? _) = _ |- _ => apply Z.leb_le in H || apply Z.leb_gt in H
                        | H : (_ <? _) = _ |- _ => apply Z.ltb_lt in H || apply Z.ltb_ge in H end; lia.
Qed.

Ltac eval_tests :=
  repeat match goal with
         | |- context [?a <=? ?b] =>
             let r := eval vm_compute in (a <=? b) in progress change (a <=? b) with r
         | |- context [?a <? ?b] =>
             let r := eval vm_compute in (a <? b) in progress change (a <? b) with r
         | |- context [?a =? ?b] =>
             let r := eval vm_compute in (a =? b) in progress change (a =? b) with r
         end.

(** C3: for every width, height and pixel array of [width * height]
    bytes, [createBMP] returns a byte sequence of exactly
    [14 + 40 + 256*4 + (ceil(width/4)*4) * height] bytes whose height
    field (offset 22) holds [-height] little-endian (two's complement,
    modulo 2^32 as [setInt32] stores it), whose bit count (offset 28) is 8,
    whose compression (offset 30) is 0, and whose palette entry [i] is
    [(i, i, i, 0)] for every [i] in [0, 255]. *)
Theorem createBMP_layout (width height : Z) (pixelData : list Z)
    (Hlen : Z.of_nat (length pixelData) = width * height) :
  exists b, createBMP width height pixelData = Some b /\ bmp_layout width height b.
Proof.
  assert (Hpos : 0 <= Qceiling (inject_Z width / inject_Z 4) * 4 * height).
  { rewrite ceil_div4.
    pose proof (Z.div_mod (width + 3) 4 ltac:(lia)).
    pose proof (Z.mod_pos_bound (width + 3) 4 ltac:(lia)).
    set (q := (width + 3) / 4) in *.
    assert (Hwh : 0 <= width * height) by lia.
    destruct (Z.lt_trichotomy width 0) as [Hw | [Hw | Hw]].
    - assert (height <= 0) by nia; assert (q <= 0) by lia; nia.
    - subst width; assert (q = 0) by lia; subst q; lia.
    - assert (0 <= height) by nia; assert (0 <= q) by lia; nia. }
  unfold createBMP; cbv zeta.
  destruct (_ <? 54) eqn:E; [apply Z.ltb_lt in E; lia | clear E].
  eexists; split; [reflexivity |].
  assert (Hpix : forall j, j < 1078 -> forall w,
            In w (bmp_pixels (14 + 40 + 256 * 4) (Qceiling (inject_Z width / inject_Z 4) * 4)
                    width height pixelData) -> fst w <> j)
    by (intros j Hj w Hw; apply bmp_pixels_index in Hw; lia).
  assert (Hpal : forall j, j < 54 -> last_write j (bmp_palette (14 + 40)) = None)
    by (intros j Hj; apply last_write_none; intros w Hw; apply bmp_palette_index in Hw; lia).
  unfold bmp_layout; split; [| split; [| split; [| split]]].
  - rewrite blen_apply_writes; reflexivity.
  - change (zseq 22 4) with [22; 23; 24; 25]; change (zseq 0 4) with [0; 1; 2; 3].
    cbn [map].
    rewrite !bmp_bget by (lia || (apply Hpix; lia)).
    rewrite !Hpal by lia.
    rewrite !last_write_app, !last_write_le_bytes; eval_tests; cbn [andb last_write].
    rewrite !Zmod_mod; reflexivity.
  - change (zseq 28 2) with [28; 29]; cbn [map].
    rewrite !bmp_bget by (lia || (apply Hpix; lia)).
    rewrite !Hpal by lia.
    rewrite !last_write_app, !last_write_le_bytes; eval_tests; cbn [andb last_write].
    reflexivity.
  - change (zseq 30 4) with [30; 31; 32; 33]; cbn [map].
    rewrite !bmp_bget by (lia || (apply Hpix; lia)).
    rewrite !Hpal by lia.
    rewrite !last_write_app, !last_write_le_bytes; eval_tests; cbn [andb last_write].
    reflexivity.
  - intros i Hi.
    pose proof palette_bytes as Hp.
    rewrite forallb_forall in Hp; specialize (Hp i (proj2 (in_zseq 0 256 i) ltac:(lia))).
    change (zseq (54 + 4 * i) 4) with [54 + 4 * i + 0; 54 + 4 * i + 1; 54 + 4 * i + 2; 54 + 4 * i + 3].
    cbn [map].
    replace (54 + 4 * i + 0) with (54 + 4 * i) by lia.
    replace (54 + 4 * i + 1) with (55 + 4 * i) by lia.
    replace (54 + 4 * i + 2) with (56 + 4 * i) by lia.
    replace (54 + 4 * i + 3) with (57 + 4 * i) by lia.
    rewrite !bmp_bget by (lia || (apply Hpix; lia)).
    change (14 + 40) with 54.
    destruct (last_write (54 + 4 * i) (bmp_palette 54)) as [a |]; [| discriminate].
    destruct (last_write (55 + 4 * i) (bmp_palette 54)) as [b |]; [| discriminate].
    destruct (last_write (56 + 4 * i) (bmp_palette 54)) as [c |]; [| discriminate].
    destruct (last_write (57 + 4 * i) (bmp_palette 54)) as [d |]; [| discriminate].
    repeat rewrite andb_true_iff in Hp; rewrite !Z.eqb_eq in Hp.
    destruct Hp as [[[-> ->] ->] ->].
    rewrite Z.mod_small by lia; reflexivity.
Qed.

Lemma createBMP_layout_witness :
  exists b, createBMP 3 2 [1; 2; 3; 4; 5; 6] = Some b /\ bmp_layout 3 2 b.
Proof. apply createBMP_layout; reflexivity. Defined.

(** ** The agenda: overflow marker *)

Lemma count_titles_app (d : nat) (l1 l2 : list site) :
  count_titles d (l1 ++ l2) = (count_titles d l1 + count_titles d l2)%nat.
Proof. unfold count_titles; rewrite filter_app, length_app; reflexivity. Qed.

Lemma count_titles_cons (d : nat) (s : site) (l : list site) :
  count_titles d (s :: l) =
  ((match s with STitle d' _ => if Nat.eqb d' d then 1 else 0 | _ => 0 end)
   + count_titles d l)%nat.
Proof.
  unfold count_titles; cbn [filter].
  destruct s; try reflexivity; destruct (Nat.eqb d0 d); reflexivity.
Qed.

Lemma no_more_app (l1 l2 : list site) : no_more (l1 ++ l2) = no_more l1 && no_more l2.
Proof. unfold no_more; apply forallb_app. Qed.

Lemma count_titles_other (d : nat) (l : list site) :
  Forall (fun s => site_day s <> d) l -> count_titles d l = O.
Proof.
  induction 1 as [| s l Hs _ IH]; [reflexivity |].
  unfold count_titles in *; simpl.
  destruct s; simpl in Hs; try exact IH.
  destruct (Nat.eqb_spec d0 d); [contradiction | exact IH].
Qed.

Lemma events_loop_shape (width maxContentY maxTitleWidth : Z) (d : nat) (isToday : bool)
    (n : nat) : forall evs i eventY cs y',
  (i + length evs)%nat = n ->
  events_loop width maxContentY maxTitleWidth d isToday n evs i eventY = (cs, y') ->
  Forall (fun s => site_day s = d) (map fst cs) /\
  ((no_more (map fst cs) = true /\ count_titles d (map fst cs) = length evs) \/
   (exists pre yM,
      cs = pre ++ [(SMore d, CText MARGIN yM
                     (more_text (Z.of_nat n - Z.of_nat (i + count_titles d (map fst pre))))
                     LIGHT_GRAY 2)] /\
      no_more (map fst pre) = true /\ maxContentY < y')).
Proof.
  induction evs as [| ev rest IH]; intros i eventY cs y' Hn Hrun; cbn [events_loop] in Hrun.
  - injection Hrun as <- <-; split; [constructor | left; split; reflexivity].
  - destruct (eventY + 30 >? maxContentY) eqn:Hfit.
    + cbn [length] in Hn.
      replace (Z.of_nat n - Z.of_nat i >? 0) with true in Hrun
        by (symmetry; apply Z.gtb_lt; lia).
      injection Hrun as <- <-.
      split; [repeat constructor |].
      right; exists [], eventY; split; [| split; [reflexivity |]].
      * cbn [map count_titles filter length]; rewrite Nat.add_0_r; reflexivity.
      * apply Z.gtb_lt in Hfit; lia.
    + destruct (events_loop width maxContentY maxTitleWidth d isToday n rest (S i) _)
        as [cs0 y0] eqn:Hrec.
      injection Hrun as <- <-.
      cbn [length] in Hn.
      destruct (IH (S i) _ cs0 y0 ltac:(lia) Hrec) as [Hd [[Hm Hc] | [pre [yM [Hcs [Hm Hy]]]]]];
        destruct ((Z.of_nat i <? Z.of_nat n - 1) && _);
        (split; [cbn [app map]; repeat (constructor; [reflexivity |]); exact Hd |]).
      * left; unfold no_more in *; cbn [app map forallb is_more negb andb]; split; [exact Hm |].
        cbn [app map fst]; rewrite !count_titles_cons; cbv beta iota; rewrite Nat.eqb_refl, Hc; reflexivity.
      * left; unfold no_more in *; cbn [app map forallb is_more negb andb]; split; [exact Hm |].
        cbn [app map fst]; rewrite !count_titles_cons; cbv beta iota; rewrite Nat.eqb_refl, Hc; reflexivity.
      * right; rewrite Hcs.
        cbn [app].
        match goal with |- exists _ _, ?x1 :: ?x2 :: ?x3 :: pre ++ _ = _ /\ _ => exists (x1 :: x2 :: x3 :: pre), yM end.
        split; [| split; [| exact Hy]].
        -- match goal with |- context [Z.of_nat (i + ?c)] =>
             replace (i + c)%nat with (S i + count_titles d (map fst pre))%nat;
             [reflexivity | cbn [map fst]; rewrite !count_titles_cons; cbv beta iota; rewrite Nat.eqb_refl; lia] end.
        -- unfold no_more in *; cbn [map forallb is_more negb andb]; exact Hm.
      * right; rewrite Hcs.
        cbn [app].
        match goal with |- exists _ _, ?x1 :: ?x2 :: pre ++ _ = _ /\ _ => exists (x1 :: x2 :: pre), yM end.
        split; [| split; [| exact Hy]].
        -- match goal with |- context [Z.of_nat (i + ?c)] =>
             replace (i + c)%nat with (S i + count_titles d (map fst pre))%nat;
             [reflexivity | cbn [map fst]; rewrite !count_titles_cons; cbv beta iota; rewrite Nat.eqb_refl; lia] end.
        -- unfold no_more in *; cbn [map forallb is_more negb andb]; exact Hm.
Qed.

Lemma no_more_sep (d : nat) (l : list site) :
  Forall (fun s => s = SSep d) l -> no_more l = true.
Proof. induction 1 as [| s l -> _ IH]; [reflexivity | exact IH]. Qed.

Lemma count_titles_sep (d d' : nat) (l : list site) :
  Forall (fun s => s = SSep d) l -> count_titles d' l = O.
Proof. induction 1 as [| s l -> _ IH]; [reflexivity | exact IH]. Qed.

Lemma same_day_in (d : nat) (l1 l2 : list site) (x : site) :
  Forall (fun s => site_day s = d) l1 -> site_day x <> d -> In x (l1 ++ l2) -> In x l2.
Proof.
  intros H1 Hx Hin; apply in_app_or in Hin as [Hin | Hin]; [| exact Hin].
  rewrite Forall_forall in H1; apply H1 in Hin; contradiction.
Qed.

Lemma same_day_count (d d' : nat) (l1 l2 : list site) :
  Forall (fun s => site_day s = d) l1 -> d' <> d ->
  count_titles d' (l1 ++ l2) = count_titles d' l2.
Proof.
  intros H1 Hd; rewrite count_titles_app, count_titles_other; [reflexivity |].
  eapply Forall_impl; [| exact H1]; cbn beta; intros s ->; congruence.
Qed.

Lemma days_loop_stop (width maxContentY maxTitleWidth : Z) (d : nat)
    (days : list DayEvents) (eventY : Z) :
  maxContentY < eventY -> days_loop width maxContentY maxTitleWidth d days eventY = [].
Proof.
  intros H; destruct days; cbn [days_loop]; [reflexivity |].
  replace (eventY + (dayHeaderHeight + eventRowHeight) >? maxContentY) with true;
    [reflexivity | symmetry; apply Z.gtb_lt; unfold dayHeaderHeight, eventRowHeight; lia].
Qed.

(** One iteration of the day loop, with the separator and the label abstracted. *)
Lemma days_loop_unfold (width maxContentY maxTitleWidth : Z) (d : nat) (day : DayEvents)
    (rest : list DayEvents) (eventY : Z) :
  (eventY + (dayHeaderHeight + eventRowHeight) >? maxContentY) = false ->
  exists sep y1 c,
    Forall (fun s => s = SSep d) (map fst sep) /\
    days_loop width maxContentY maxTitleWidth d (day :: rest) eventY =
      sep ++ (SLabel d, c) ::
      match events day with
      | [] =>
          (SNoEvents d, CText (MARGIN + timeColumnWidth) (y1 + (dayHeaderHeight - 5))
                          (js "No events") LIGHT_GRAY 2)
          :: days_loop width maxContentY maxTitleWidth (S d) rest
               (y1 + (dayHeaderHeight - 5) + eventRowHeight)
      | evs =>
          let '(cs, y3) :=
            events_loop width maxContentY maxTitleWidth d
              (jsstr_eqb (label day) (js "TODAY")) (length evs) evs 0
              (y1 + (dayHeaderHeight - 5)) in
          cs ++ days_loop width maxContentY maxTitleWidth (S d) rest y3
      end.
Proof.
  intros H; cbn [days_loop]; rewrite H.
  destruct d as [| d'].
  - exists [], eventY; eexists; split; [constructor |].
    destruct (events day); [reflexivity |].
    destruct (events_loop _ _ _ _ _ _ _ _ _); reflexivity.
  - eexists [(SSep (S d'), _)], (eventY + 15); eexists; split; [repeat constructor |].
    destruct (events day); [reflexivity |].
    destruct (events_loop _ _ _ _ _ _ _ _ _); reflexivity.
Qed.

Lemma days_loop_sites (width maxContentY maxTitleWidth : Z) :
  forall days d eventY,
  Forall (fun s => (d <= site_day s)%nat)
    (map fst (days_loop width maxContentY maxTitleWidth d days eventY)).
Proof.
  induction days as [| day rest IH]; intros d eventY; [constructor |].
  destruct (eventY + (dayHeaderHeight + eventRowHeight) >? maxContentY) eqn:Hb.
  { cbn [days_loop]; rewrite Hb; constructor. }
  destruct (days_loop_unfold width maxContentY maxTitleWidth d day rest eventY Hb)
    as [sep [y1 [c [Hsep ->]]]].
  rewrite map_app; apply Forall_app; split.
  { eapply Forall_impl; [| exact Hsep]; intros s ->; cbn; lia. }
  cbn [map fst]; constructor; [cbn; lia |].
  destruct (events day) as [| e es].
  - cbn [map fst]; constructor; [cbn; lia |].
    eapply Forall_impl; [| apply IH]; cbn beta; intros; lia.
  - destruct (events_loop _ _ _ _ _ _ _ _ _) as [cs y3] eqn:E.
    destruct (events_loop_shape _ _ _ _ _ (length (e :: es)) (e :: es) 0 _ _ _ eq_refl E) as [Hd _].
    rewrite map_app; apply Forall_app; split.
    + eapply Forall_impl; [| exact Hd]; cbn beta; intros; lia.
    + eapply Forall_impl; [| apply IH]; cbn beta; intros; lia.
Qed.

Lemma days_loop_marker (width maxContentY maxTitleWidth : Z) :
  forall days d0 eventY k dy,
  nth_error days k = Some dy ->
  let T := days_loop width maxContentY maxTitleWidth d0 days eventY in
  In (SLabel (d0 + k)) (map fst T) ->
  (count_titles (d0 + k) (map fst T) < length (events dy))%nat ->
  exists pre yM,
    T = pre ++ [(SMore (d0 + k), CText MARGIN yM
                  (more_text (Z.of_nat (length (events dy))
                              - Z.of_nat (count_titles (d0 + k) (map fst pre))))
                  LIGHT_GRAY 2)] /\
    no_more (map fst pre) = true.
Proof.
  induction days as [| day rest IH]; intros d0 eventY k dy Hk T Hin Hc; subst T.
  { destruct k; discriminate. }
  destruct (eventY + (dayHeaderHeight + eventRowHeight) >? maxContentY) eqn:Hb.
  { cbn [days_loop] in Hin; rewrite Hb in Hin; destruct Hin. }
  destruct (days_loop_unfold width maxContentY maxTitleWidth d0 day rest eventY Hb)
    as [sep [y1 [c [Hsep Heq]]]].
  rewrite Heq in Hin, Hc |- *; clear Heq.
  assert (Hsep' : Forall (fun s => site_day s = d0) (map fst sep))
    by (eapply Forall_impl; [| exact Hsep]; intros s ->; reflexivity).
  assert (Htail : forall y, Forall (fun s => site_day s <> d0)
            (map fst (days_loop width maxContentY maxTitleWidth (S d0) rest y)))
    by (intros y; eapply Forall_impl; [| apply days_loop_sites]; cbn beta; intros; lia).
  destruct k as [| k'].
  - injection Hk as <-; rewrite Nat.add_0_r in *.
    destruct (events day) as [| e es] eqn:Eev; [cbn [length] in Hc; lia |].
    cbv zeta in Hin, Hc |- *.
    destruct (events_loop _ _ _ _ _ _ _ _ _) as [cs y3] eqn:E.
    destruct (events_loop_shape _ _ _ _ _ (length (e :: es)) (e :: es) 0 _ _ _ eq_refl E)
      as [Hd [[Hm Hcnt] | [pre [yM [Hcs [Hm Hy]]]]]].
    + exfalso.
      rewrite !map_app, count_titles_app, (count_titles_sep _ _ _ Hsep) in Hc.
      cbn [map fst] in Hc; rewrite count_titles_cons in Hc; cbv beta iota in Hc.
      rewrite map_app, !count_titles_app, Hcnt, (count_titles_other _ _ (Htail y3)) in Hc.
      lia.
    + rewrite Hcs, days_loop_stop, app_nil_r by exact Hy.
      exists (sep ++ (SLabel d0, c) :: pre), yM; split.
      * assert (Hx : count_titles d0 (map fst (sep ++ (SLabel d0, c) :: pre))
                     = count_titles d0 (map fst pre)).
        { rewrite map_app, count_titles_app, (count_titles_sep _ _ _ Hsep).
          cbn [map fst]; rewrite count_titles_cons; reflexivity. }
        rewrite Hx, <- app_assoc; reflexivity.
      * rewrite map_app, no_more_app, (no_more_sep _ _ Hsep); exact Hm.
  - cbn [nth_error] in Hk.
    replace (d0 + S k')%nat with (S d0 + k')%nat in * by lia.
    assert (Hne : (S d0 + k')%nat <> d0) by lia.
    destruct (events day) as [| e es] eqn:Eev.
    + set (P := map fst (sep ++ [(SLabel d0, c);
          (SNoEvents d0, CText (MARGIN + timeColumnWidth) (y1 + (dayHeaderHeight - 5))
                           (js "No events") LIGHT_GRAY 2)])).
      assert (HP : Forall (fun s => site_day s = d0) P)
        by (unfold P; rewrite map_app; apply Forall_app; split;
            [exact Hsep' | repeat constructor]).
      assert (HT : forall tl, map fst (sep ++ (SLabel d0, c) ::
          (SNoEvents d0, CText (MARGIN + timeColumnWidth) (y1 + (dayHeaderHeight - 5))
                           (js "No events") LIGHT_GRAY 2) :: tl) = P ++ map fst tl)
        by (intros tl; unfold P; rewrite !map_app; cbn [map]; rewrite <- app_assoc; reflexivity).
      rewrite HT in Hin, Hc.
      apply (same_day_in _ _ _ (SLabel (S d0 + k')) HP ltac:(cbn; lia)) in Hin.
      rewrite (same_day_count _ _ _ _ HP Hne) in Hc.
      destruct (IH (S d0) _ k' dy Hk Hin Hc) as [pre [yM [Hpre Hm]]].
      rewrite Hpre.
      eexists (sep ++ _ :: _ :: pre), yM; split.
      * rewrite <- app_assoc; cbn [app].
        rewrite HT, (same_day_count _ _ _ _ HP Hne); reflexivity.
      * rewrite map_app, no_more_app, (no_more_sep _ _ Hsep); exact Hm.
    + cbv zeta in Hin, Hc |- *.
      destruct (events_loop _ _ _ _ _ _ _ _ _) as [cs y3] eqn:E.
      destruct (events_loop_shape _ _ _ _ _ (length (e :: es)) (e :: es) 0 _ _ _ eq_refl E)
        as [Hd [[Hm0 Hcnt] | [pre0 [yM0 [Hcs [Hm0 Hy]]]]]].
      * set (P := map fst (sep ++ (SLabel d0, c) :: cs)).
        assert (HP : Forall (fun s => site_day s = d0) P)
          by (unfold P; rewrite map_app; apply Forall_app; split;
              [exact Hsep' | constructor; [reflexivity | exact Hd]]).
        assert (HT : forall tl, map fst (sep ++ (SLabel d0, c) :: cs ++ tl) = P ++ map fst tl)
          by (intros tl; unfold P; rewrite !map_app; cbn [map]; rewrite map_app, <- app_assoc;
              reflexivity).
        rewrite HT in Hin, Hc.
        apply (same_day_in _ _ _ (SLabel (S d0 + k')) HP ltac:(cbn; lia)) in Hin.
        rewrite (same_day_count _ _ _ _ HP Hne) in Hc.
        destruct (IH (S d0) _ k' dy Hk Hin Hc) as [pre [yM [Hpre Hm]]].
        rewrite Hpre.
        exists (sep ++ (SLabel d0, c) :: cs ++ pre), yM; split.
        -- rewrite <- app_assoc; cbn [app]; rewrite <- app_assoc.
           rewrite HT, (same_day_count _ _ _ _ HP Hne); reflexivity.
        -- rewrite map_app, no_more_app, (no_more_sep _ _ Hsep); cbn [map fst].
           unfold no_more in *; cbn [forallb is_more negb andb].
           rewrite map_app, forallb_app, Hm0; exact Hm.
      * exfalso.
        rewrite days_loop_stop, app_nil_r in Hin by exact Hy.
        rewrite map_app in Hin; apply in_app_or in Hin as [Hin | Hin].
        { rewrite Forall_forall in Hsep'; apply Hsep' in Hin; cbn in Hin; lia. }
        cbn [map fst] in Hin; destruct Hin as [Hin | Hin]; [injection Hin; lia |].
        rewrite Forall_forall in Hd; apply Hd in Hin; cbn in Hin; lia.
Qed.

(** C2: when a painted day [k] has more events than the composer painted
    titles for, the agenda trace ends with exactly one "+N more..." marker,
    for day [k], with [N] the number of its events left unpainted; no marker
    occurs before it and nothing (of that day or of any later day) is
    painted after it. *)
Theorem agenda_overflow_marker (width height : Z) (days : list DayEvents) (k : nat)
    (dy : DayEvents) :
  nth_error days k = Some dy ->
  In (SLabel k) (map fst (agenda width height days)) ->
  (count_titles k (map fst (agenda width height days)) < length (events dy))%nat ->
  exists pre yM,
    agenda width height days =
      pre ++ [(SMore k, CText MARGIN yM
                 (more_text (Z.of_nat (length (events dy))
                             - Z.of_nat (count_titles k (map fst pre))))
                 LIGHT_GRAY 2)] /\
    no_more (map fst pre) = true.
Proof.
  intros Hk Hin Hc.
  exact (days_loop_marker width (height - 50) ((width - MARGIN * 2) - timeColumnWidth - 10)
           days 0 270 k dy Hk Hin Hc).
Qed.

Lemma agenda_overflow_marker_witness :
  exists pre yM,
    agenda 480 800 [busy_day] =
      pre ++ [(SMore 0, CText MARGIN yM
                 (more_text (Z.of_nat (length (events busy_day))
                             - Z.of_nat (count_titles 0 (map fst pre))))
                 LIGHT_GRAY 2)] /\
    no_more (map fst pre) = true.
Proof.
  apply (agenda_overflow_marker 480 800 [busy_day] 0 busy_day).
  - reflexivity.
  - vm_compute; left; reflexivity.
  - apply Nat.ltb_lt; vm_compute; reflexivity.
Defined.

(** ** Grey levels of the rendered buffer *)

Ltac in_writes :=
  repeat match goal with
  | H : In _ (flat_map _ _) |- _ =>
      apply in_flat_map in H; destruct H as [? [_ H]]; cbv beta zeta in H
  | H : In _ (map _ _) |- _ => apply in_map_iff in H; destruct H as [? [<- _]]
  | H : In _ (_ ++ _) |- _ => apply in_app_or in H; destruct H as [H | H]
  | H : In _ (if ?b then _ else _) |- _ => destruct b
  | H : In _ [] |- _ => destruct H
  | H : In _ (_ :: _) |- _ => destruct H as [<- | H]
  end.

Lemma last_write_in (j v : Z) (ws : list write) : last_write j ws = Some v -> In (j, v) ws.
Proof.
  induction ws as [| [i u] r IH]; cbn [last_write]; [discriminate |].
  destruct (last_write j r); intros H.
  - injection H as <-; right; apply IH; reflexivity.
  - destruct (Z.eqb_spec i j); [injection H as <-; subst; left; reflexivity | discriminate].
Qed.

Lemma drawChar_color (width x y c color scale : Z) (w : write) :
  In w (drawChar width x y c color scale) -> snd w = color.
Proof.
  unfold drawChar; destruct (FONT_DATA c); intros H; [| destruct H].
  in_writes; reflexivity.
Qed.

Lemma drawText_color (width x y : Z) (t : jsstr) (color scale : Z) (w : write) :
  In w (drawText width x y t color scale) -> snd w = color.
Proof.
  unfold drawText; generalize x; induction (code_points t) as [| c r IH]; intros cx H;
    cbn [drawText_loop] in H; [destruct H |].
  destruct (drawText_loop width (cx + 8 * scale) y r color scale) as [ws cx'] eqn:E.
  cbn [fst] in H; apply in_app_or in H as [H | H].
  - exact (drawChar_color _ _ _ _ _ _ _ H).
  - apply (IH (cx + 8 * scale)); rewrite E; exact H.
Qed.

Lemma fillRect_color (width height x y w h color : Z) (wr : write) :
  In wr (fillRect width height x y w h color) -> snd wr = color.
Proof. unfold fillRect; intros H; in_writes; reflexivity. Qed.

Lemma drawHLine_color (width y x1 x2 color thickness : Z) (w : write) :
  In w (drawHLine width y x1 x2 color thickness) -> snd w = color.
Proof. apply fillRect_color. Qed.

Lemma dashed_loop_color (width y x2 color dashLen gapLen : Z) (w : write) :
  forall fuel x drawing,
  In w (dashed_loop fuel width y x x2 color dashLen gapLen drawing) -> snd w = color.
Proof.
  induction fuel as [| f IH]; intros x drawing H; cbn [dashed_loop] in H; [destruct H |].
  destruct (x <? x2); [| destruct H].
  destruct drawing; [| eapply IH; exact H].
  apply in_app_or in H as [H | H]; [in_writes; reflexivity | eapply IH; exact H].
Qed.

Lemma drawCloudShape_color (mcos msin : Z -> Q) (width x y w h : Z) (wr : write) :
  In wr (drawCloudShape mcos msin width x y w h) -> snd wr = INK_BLACK.
Proof.
  unfold drawCloudShape; intros H; apply in_app_or in H as [H | H];
    [in_writes; reflexivity | exact (drawHLine_color _ _ _ _ _ _ _ H)].
Qed.

Lemma drawWeatherIcon_color (mcos msin : Z -> Q) (width x y code : Z) (w : write) :
  In w (drawWeatherIcon mcos msin width x y code) -> In (snd w) levels.
Proof.
  unfold drawWeatherIcon, levels; intros H.
  destruct (icon_of_code code).
  - unfold sun_writes in H; in_writes; cbn; auto.
  - rewrite (drawCloudShape_color _ _ _ _ _ _ _ _ H); cbn; auto.
  - in_writes; rewrite (drawHLine_color _ _ _ _ _ _ _ H); cbn; auto.
  - apply in_app_or in H as [H | H];
      [rewrite (drawCloudShape_color _ _ _ _ _ _ _ _ H) | in_writes]; cbn; auto.
  - apply in_app_or in H as [H | H];
      [rewrite (drawCloudShape_color _ _ _ _ _ _ _ _ H) | in_writes]; cbn; auto.
  - apply in_app_or in H as [H | H];
      [rewrite (drawCloudShape_color _ _ _ _ _ _ _ _ H) | in_writes]; cbn; auto.
  - rewrite (drawText_color _ _ _ _ _ _ _ H); cbn; auto.
Qed.

Lemma cmd_writes_color (mcos msin : Z -> Q) (width : Z) (c : cmd) (w : write) :
  cmd_ok c -> In w (cmd_writes mcos msin width c) -> In (snd w) levels.
Proof.
  destruct c; cbn [cmd_ok cmd_writes]; intros Hc H.
  - rewrite (drawText_color _ _ _ _ _ _ _ H); exact Hc.
  - rewrite (drawHLine_color _ _ _ _ _ _ _ H); exact Hc.
  - unfold drawDashedHLine in H; rewrite (dashed_loop_color _ _ _ _ _ _ _ _ _ _ H); exact Hc.
  - exact (drawWeatherIcon_color _ _ _ _ _ _ _ H).
Qed.

Lemma ink_level : In INK_BLACK levels. Proof. cbn; auto. Qed.
Lemma dark_level : In DARK_GRAY levels. Proof. cbn; auto. Qed.
Lemma light_level : In LIGHT_GRAY levels. Proof. cbn; auto 6. Qed.
Lemma choice_level (b : bool) : In (if b then INK_BLACK else DARK_GRAY) levels.
Proof. destruct b; cbn; auto. Qed.

Create HintDb levels_db.
#[local] Hint Resolve ink_level dark_level light_level choice_level : levels_db.

Ltac cmds_ok :=
  repeat (apply Forall_cons; [cbn [cmd_ok snd]; auto with levels_db |]); try apply Forall_nil.

Lemma events_loop_ok (width maxContentY maxTitleWidth : Z) (d : nat) (isToday : bool)
    (n : nat) : forall evs i eventY,
  Forall (fun sc => cmd_ok (snd sc))
    (fst (events_loop width maxContentY maxTitleWidth d isToday n evs i eventY)).
Proof.
  induction evs as [| ev rest IH]; intros i eventY; cbn [events_loop]; [constructor |].
  destruct (eventY + 30 >? maxContentY).
  - destruct (Z.of_nat n - Z.of_nat i >? 0); cbn [fst]; cmds_ok.
  - destruct (events_loop _ _ _ _ _ _ rest (S i) _) as [cs y'] eqn:E.
    specialize (IH (S i) (eventY + 26 + (eventRowHeight - 26))); rewrite E in IH.
    cbn [fst]; cmds_ok; apply Forall_app; split; [| exact IH].
    destruct (_ && _); cmds_ok.
Qed.

Lemma days_loop_ok (width maxContentY maxTitleWidth : Z) : forall days d eventY,
  Forall (fun sc => cmd_ok (snd sc)) (days_loop width maxContentY maxTitleWidth d days eventY).
Proof.
  induction days as [| day rest IH]; intros d eventY; [constructor |].
  destruct (eventY + (dayHeaderHeight + eventRowHeight) >? maxContentY) eqn:Hb.
  { cbn [days_loop]; rewrite Hb; constructor. }
  cbn [days_loop]; rewrite Hb.
  destruct d as [| d']; cbv beta iota zeta;
    (destruct (events day) as [| e es];
     [ apply Forall_app; split; [cmds_ok | cmds_ok; apply IH]
     | destruct (events_loop _ _ _ _ _ _ _ _ _) as [cs y3] eqn:E;
       apply Forall_app; split; [cmds_ok |];
       cmds_ok; apply Forall_app; split; [| apply IH];
       match type of E with events_loop ?a ?b ?c ?d ?t ?n ?l ?i ?y = _ =>
         pose proof (events_loop_ok a b c d t n l i y) as Hev end;
       rewrite E in Hev; exact Hev]).
Qed.

Lemma render_cmds_ok (width height : Z) (weather : WeatherData) (days : list DayEvents)
    (g : GeneratedAt) (c : cmd) :
  In c (render_cmds width height weather days g) -> cmd_ok c.
Proof.
  unfold render_cmds; intros H.
  apply in_app_or in H as [H | H]; [| apply in_app_or in H as [H | H]].
  - repeat (destruct H as [<- | H]; [cbn [cmd_ok]; auto with levels_db |]); destruct H.
  - apply in_map_iff in H as [[s c'] [<- Hin]].
    pose proof (days_loop_ok width (height - 50) ((width - MARGIN * 2) - timeColumnWidth - 10)
                  days 0 270) as Hok.
    rewrite Forall_forall in Hok; exact (Hok _ Hin).
  - repeat (destruct H as [<- | H]; [cbn [cmd_ok]; auto with levels_db |]); destruct H.
Qed.

Lemma render_writes_levels (mcos msin : Z -> Q) (width height : Z) (weather : WeatherData)
    (days : list DayEvents) (g : GeneratedAt) (w : write) :
  In w (render_writes mcos msin width height weather days g) -> In (snd w) levels.
Proof.
  unfold render_writes; intros H.
  apply in_flat_map in H as [c [Hc H]].
  exact (cmd_writes_color _ _ _ _ _ (render_cmds_ok _ _ _ _ _ _ Hc) H).
Qed.

(** C10: every byte of the buffer [renderDisplay] returns is one of the four
    grey levels 0, 64, 176 and 255, for every input and every values of the
    trigonometric functions. *)
Theorem render_grey_levels (mcos msin : Z -> Q) (width height : Z) (weather : WeatherData)
    (days : list DayEvents) (g : GeneratedAt) (b : buf) (i : Z) :
  renderDisplay mcos msin width height weather days g = Some b ->
  0 <= i < blen b ->
  In (bget b i) [INK_BLACK; DARK_GRAY; LIGHT_GRAY; PAPER_WHITE].
Proof.
  unfold renderDisplay; destruct (width * height <? 0); [discriminate |].
  intros Hb Hi; injection Hb as <-.
  rewrite blen_apply_writes in Hi.
  rewrite (bget_apply_writes _ _ _ Hi).
  destruct (last_write i _) as [v |] eqn:E; [| cbn; auto 6].
  apply last_write_in, render_writes_levels in E; cbn [snd] in E.
  unfold levels in E; cbn in E |- *.
  destruct E as [<- | [<- | [<- | [<- | []]]]]; cbn; auto 6.
Qed.

Lemma render_grey_levels_witness :
  exists b, renderDisplay trig0 trig0 480 800 rainy [busy_day] noon = Some b /\
            bget b (30 * 480 + 34) = INK_BLACK /\
            In (bget b (30 * 480 + 34)) [INK_BLACK; DARK_GRAY; LIGHT_GRAY; PAPER_WHITE].
Proof.
  exists (apply_writes (buf_fill (480 * 800) PAPER_WHITE)
            (render_writes trig0 trig0 480 800 rainy [busy_day] noon)).
  assert (Hr : renderDisplay trig0 trig0 480 800 rainy [busy_day] noon =
               Some (apply_writes (buf_fill (480 * 800) PAPER_WHITE)
                       (render_writes trig0 trig0 480 800 rainy [busy_day] noon)))
    by reflexivity.
  split; [exact Hr | split; [vm_compute; reflexivity |]].
  apply (render_grey_levels trig0 trig0 480 800 rainy [busy_day] noon _ _ Hr).
  rewrite blen_apply_writes; cbn; lia.
Defined.

(** ** Out-of-range stores *)

(** C1 (code bug): on a 480 x 100 canvas the render issues stores outside
    [0, 480 * 100): the weather-band rule is drawn at row 180 by [drawHLine],
    which clips rows against the constant 9999 instead of the canvas height,
    whatever the trigonometric values. *)
Theorem render_out_of_bounds_write (mcos msin : Z -> Q) :
  exists w, In w (render_writes mcos msin 480 100 rainy [] noon) /\
            ~ (0 <= fst w < 480 * 100).
Proof.
  exists (180 * 480 + MARGIN, INK_BLACK); split; [| cbn; lia].
  unfold render_writes; apply in_flat_map.
  exists (CHLine 180 MARGIN (480 - MARGIN) INK_BLACK 3); split.
  - unfold render_cmds; cbv zeta; apply in_or_app; left.
    do 6 right; left; reflexivity.
  - cbn [cmd_writes]; unfold drawHLine, fillRect; apply in_flat_map.
    exists 180; split; [vm_compute; left; reflexivity |].
    apply in_flat_map; exists MARGIN; split; [vm_compute; left; reflexivity |].
    vm_compute; left; reflexivity.
Qed.

(** ** The agenda area of an empty agenda *)

Lemma arc_x_ge1 (mcos : Z -> Q) (cx r : Q) (angle : Z) :
  (forall a, -1 <= mcos a <= 1)%Q -> (0 <= r)%Q -> (1 <= cx - r)%Q ->
  1 <= arc_x mcos cx r angle.
Proof.
  intros Hm Hr Hc; specialize (Hm angle); unfold arc_x, jsround.
  assert (H1 : (1 <= cx + r * mcos angle + (1 # 2))%Q) by nra.
  exact (Qfloor_resp_le _ _ H1).
Qed.

Lemma point_nil (px : Z) (b : bool) (l : list write) :
  1 <= px -> (if (0 <=? px) && (px <? 1) && b then l else []) = [].
Proof.
  intros H; replace (px <? 1) with false by (symmetry; apply Z.ltb_ge; lia).
  destruct (0 <=? px); reflexivity.
Qed.

Lemma trig0_bounded : (forall a, -1 <= trig0 a <= 1)%Q.
Proof. intros a; split; apply Qle_bool_imp_le; reflexivity. Qed.

(** On a one-pixel-wide canvas no arc point of the rain cloud at (240, 20)
    passes the [px < width] test, whatever [Math.cos] returns in [-1, 1]. *)
Lemma rain_cloud_oracle (mcos msin : Z -> Q) :
  (forall a, -1 <= mcos a <= 1)%Q ->
  drawCloudShape mcos msin 1 (240 + 8) (20 + 8) 32 16 =
  drawCloudShape trig0 trig0 1 (240 + 8) (20 + 8) 32 16.
Proof.
  intros Hm; unfold drawCloudShape; cbv beta zeta; f_equal.
  apply flat_map_ext; intros k.
  repeat (rewrite point_nil by
            (apply arc_x_ge1; [exact Hm || exact trig0_bounded
                              | apply Qle_bool_imp_le; vm_compute; reflexivity
                              | apply Qle_bool_imp_le; vm_compute; reflexivity])).
  reflexivity.
Qed.

Lemma flat_map_cmd_ext (m1 s1 m2 s2 : Z -> Q) (width : Z) (l : list cmd) :
  (forall c, In c l -> cmd_writes m1 s1 width c = cmd_writes m2 s2 width c) ->
  flat_map (cmd_writes m1 s1 width) l = flat_map (cmd_writes m2 s2 width) l.
Proof.
  induction l as [| c r IH]; intros H; [reflexivity |]; cbn [flat_map].
  rewrite (H c (or_introl eq_refl)), IH; [reflexivity |].
  intros c' Hc'; apply H; right; exact Hc'.
Qed.

Lemma empty_render_oracle (mcos msin : Z -> Q) :
  (forall a, -1 <= mcos a <= 1)%Q ->
  renderDisplay mcos msin 1 800 rainy [] noon = renderDisplay trig0 trig0 1 800 rainy [] noon.
Proof.
  intros Hm; unfold renderDisplay, render_writes.
  rewrite (flat_map_cmd_ext mcos msin trig0 trig0); [reflexivity |].
  unfold render_cmds, agenda; cbv zeta; cbn [days_loop map app].
  intros c Hc.
  repeat (destruct Hc as [<- | Hc]; [try reflexivity |]); [| destruct Hc].
  cbn [cmd_writes]; unfold drawWeatherIcon; cbn [conditionCode rainy].
  replace (icon_of_code 61) with Rain by reflexivity.
  rewrite (rain_cloud_oracle mcos msin Hm); reflexivity.
Qed.

(** C9 (code bug): with no calendar days, a rainy forecast and a canvas one
    pixel wide, a pixel of the agenda area (row 306) comes out ink black:
    the rain drops are stored at [(dy + j) * width + dx] with no column test,
    so on a narrow canvas they wrap into rows far below the icon.  This holds
    for every [Math.cos] with values in [-1, 1]. *)
Theorem empty_agenda_not_blank (mcos msin : Z -> Q) :
  (forall a, -1 <= mcos a <= 1)%Q ->
  exists b, renderDisplay mcos msin 1 800 rainy [] noon = Some b /\
            in_agenda_area 1 800 306 = true /\ bget b 306 = INK_BLACK.
Proof.
  intros Hm; rewrite (empty_render_oracle mcos msin Hm).
  eexists; split; [reflexivity |].
  split; vm_compute; reflexivity.
Qed.

Lemma empty_agenda_not_blank_witness :
  exists b, renderDisplay trig0 trig0 1 800 rainy [] noon = Some b /\
            in_agenda_area 1 800 306 = true /\ bget b 306 = INK_BLACK.
Proof.
  apply (empty_agenda_not_blank trig0 trig0).
  intros a; split; apply Qle_bool_imp_le; reflexivity.
Defined.

(** ** Further properties of the code *)

Lemma fillRect_mem (width height x y w h color i v : Z) :
  In (i, v) (fillRect width height x y w h color) <->
  v = color /\
  exists px py, i = py * width + px /\
    0 <= px /\ x <= px < x + w /\ px < width /\
    0 <= py /\ y <= py < y + h /\ py < height.
Proof.
  unfold fillRect; rewrite in_flat_map; split.
  - intros [py [Hpy H]]; apply in_flat_map in H as [px [Hpx H]].
    apply in_zseq in Hpy; apply in_zseq in Hpx.
    destruct ((0 <=? px) && (0 <=? py)) eqn:E; [| destruct H].
    apply andb_true_iff in E as [E1 E2]; apply Z.leb_le in E1, E2.
    destruct H as [H | []]; injection H as <- <-.
    split; [reflexivity |]; exists px, py; lia.
  - intros [-> [px [py [-> Hb]]]].
    exists py; split; [apply in_zseq; lia |].
    apply in_flat_map; exists px; split; [apply in_zseq; lia |].
    replace ((0 <=? px) && (0 <=? py)) with true
      by (symmetry; apply andb_true_iff; split; apply Z.leb_le; lia).
    left; reflexivity.
Qed.

(** [fillRect] paints, in [color], exactly the cells of the rectangle
    [[x, x+w) x [y, y+h)] that lie on the canvas [[0, width) x [0, height)]. *)
Theorem fillRect_cells (width height x y w h color i v : Z) :
  In (i, v) (fillRect width height x y w h color) <->
  v = color /\
  exists px py, i = py * width + px /\
    0 <= px /\ x <= px < x + w /\ px < width /\
    0 <= py /\ y <= py < y + h /\ py < height.
Proof. apply fillRect_mem. Qed.

(** Every index [fillRect] writes lies inside the [width * height] buffer,
    whatever the rectangle. *)
Theorem fillRect_in_buffer (width height x y w h color : Z) (wr : write) :
  In wr (fillRect width height x y w h color) -> 0 <= fst wr < width * height.
Proof.
  destruct wr as [i v]; intros H; apply fillRect_mem in H as [_ [px [py [-> Hb]]]].
  cbn [fst]; nia.
Qed.

Lemma fillRect_in_buffer_witness :
  In (5, 64) (fillRect 4 3 1 1 2 2 64) /\ 0 <= fst (5, 64) < 4 * 3.
Proof.
  split; [vm_compute; auto |].
  apply (fillRect_in_buffer 4 3 1 1 2 2 64); vm_compute; auto.
Defined.

(** A write of [drawChar] is in the glyph's colour, inside the
    [8*scale]-square box at [(x, y)], and on a column [0 <= px < width] and
    a row [py >= 0] of the canvas: nothing bounds the row from below the
    canvas. *)
Theorem drawChar_cell (width x y c color scale : Z) (w : write) :
  In w (drawChar width x y c color scale) ->
  snd w = color /\
  exists px py, fst w = py * width + px /\
    0 <= px < width /\ x <= px < x + 8 * scale /\ 0 <= py /\ y <= py < y + 8 * scale.
Proof.
  unfold drawChar; destruct (FONT_DATA c) as [data |]; intros H; [| destruct H].
  apply in_flat_map in H as [row [Hrow H]]; apply in_zseq in Hrow; cbv zeta in H.
  apply in_flat_map in H as [col [Hcol H]]; apply in_zseq in Hcol.
  destruct (_ =? 0) in H; [destruct H |].
  apply in_flat_map in H as [sy [Hsy H]]; apply in_zseq in Hsy.
  apply in_flat_map in H as [sx [Hsx H]]; apply in_zseq in Hsx.
  destruct (_ && _) eqn:E in H; [| destruct H].
  destruct H as [<- | []]; cbn [fst snd].
  repeat rewrite andb_true_iff in E; rewrite Z.leb_le, Z.ltb_lt, Z.leb_le in E.
  split; [reflexivity |].
  exists (x + col * scale + sx), (y + row * scale + sy); split; [reflexivity |].
  nia.
Qed.

Lemma drawChar_cell_witness :
  In (9616, INK_BLACK) (drawChar 480 10 20 65 INK_BLACK 2) /\
  snd (9616, INK_BLACK) = INK_BLACK /\
  exists px py, fst (9616, INK_BLACK) = py * 480 + px /\
    0 <= px < 480 /\ 10 <= px < 10 + 8 * 2 /\ 0 <= py /\ 20 <= py < 20 + 8 * 2.
Proof.
  assert (H : In (9616, INK_BLACK) (drawChar 480 10 20 65 INK_BLACK 2)) by (vm_compute; auto).
  split; [exact H | exact (drawChar_cell 480 10 20 65 INK_BLACK 2 _ H)].
Defined.

Lemma drawText_blank (width x y : Z) (text : jsstr) (color scale : Z) :
  (forall c, In c (code_points text) -> FONT_DATA c = None) ->
  drawText width x y text color scale = [].
Proof.
  unfold drawText; generalize x; induction (code_points text) as [| c r IH];
    intros cx H; [reflexivity |].
  cbn [drawText_loop].
  specialize (IH (cx + 8 * scale) (fun c' Hc' => H c' (or_intror Hc'))).
  destruct (drawText_loop width (cx + 8 * scale) y r color scale) as [ws cx'] eqn:E.
  cbn [fst] in IH |- *; subst ws.
  unfold drawChar; rewrite (H c (or_introl eq_refl)); reflexivity.
Qed.

(** [drawText] paints nothing when no character of the text has a glyph in
    [FONT_DATA] (as for ['?'], ['!'] and ['&']). *)
Theorem drawText_no_glyph (width x y : Z) (text : jsstr) (color scale : Z) :
  (forall c, In c (code_points text) -> FONT_DATA c = None) ->
  drawText width x y text color scale = [].
Proof. apply drawText_blank. Qed.

Lemma drawText_no_glyph_witness : drawText 480 0 0 (js "?!&") INK_BLACK 2 = [].
Proof.
  apply drawText_no_glyph; intros c Hc; vm_compute in Hc.
  repeat (destruct Hc as [<- | Hc]; [reflexivity |]); destruct Hc.
Defined.

(** [drawCenteredText] places the text so that the margin right of it is
    the margin left of it or one pixel more. *)
Theorem centered_text_margins (width : Z) (text : jsstr) (scale : Z) :
  let x := drawCenteredText_x width text scale in
  let right := width - (x + getTextWidth text scale) in
  right = x \/ right = x + 1.
Proof.
  cbv zeta; unfold drawCenteredText_x.
  pose proof (Z.div_mod (width - getTextWidth text scale) 2 ltac:(lia)).
  pose proof (Z.mod_pos_bound (width - getTextWidth text scale) 2 ltac:(lia)).
  lia.
Qed.

Lemma mod_shift (o s t : Z) : 0 < s -> 0 < t ->
  (o - s) mod (s + t) =
  if o mod (s + t) <? s then o mod (s + t) + t else o mod (s + t) - s.
Proof.
  intros Hs Ht.
  pose proof (Z.div_mod o (s + t) ltac:(lia)) as Ho.
  pose proof (Z.mod_pos_bound o (s + t) ltac:(lia)) as Hr.
  set (r := o mod (s + t)) in *; set (q := o / (s + t)) in *.
  destruct (Z.ltb_spec r s).
  - symmetry; apply (Z.mod_unique _ _ (q - 1)); [left; lia | nia].
  - symmetry; apply (Z.mod_unique _ _ q); [left; lia | nia].
Qed.

Lemma dashed_loop_cells (width y x2 color dashLen gapLen i v : Z) :
  1 <= dashLen -> 1 <= gapLen ->
  forall fuel x drawing, (Z.to_nat (x2 - x) <= fuel)%nat ->
  In (i, v) (dashed_loop fuel width y x x2 color dashLen gapLen drawing) <->
  v = color /\
  exists px, i = y * width + px /\ x <= px < x2 /\
    (if drawing then (px - x) mod (dashLen + gapLen) < dashLen
     else gapLen <= (px - x) mod (dashLen + gapLen)).
Proof.
  intros Hd Hg; induction fuel as [| f IH]; intros x drawing Hf.
  - cbn [dashed_loop]; split; [intros [] | intros [_ [px [_ [Hpx _]]]]; lia].
  - cbn [dashed_loop]; destruct (Z.ltb_spec x x2) as [Hx | Hx].
    2: { split; [intros [] | intros [_ [px [_ [Hpx _]]]]; lia]. }
    destruct drawing.
    + rewrite in_app_iff, (IH (x + dashLen) false ltac:(lia)), in_map_iff.
      split.
      * intros [[px [Heq Hpx]] | [-> [px [-> [Hpx Hm]]]]].
        -- injection Heq as <- <-; apply in_zseq in Hpx.
           split; [reflexivity |]; exists px; split; [reflexivity |]; split; [lia |].
           rewrite Z.mod_small; lia.
        -- split; [reflexivity |]; exists px; split; [reflexivity |]; split; [lia |].
           replace (px - (x + dashLen)) with (px - x - dashLen) in Hm by lia.
           rewrite mod_shift in Hm by lia.
           pose proof (Z.mod_pos_bound (px - x) (dashLen + gapLen) ltac:(lia)).
           destruct (Z.ltb_spec ((px - x) mod (dashLen + gapLen)) dashLen); lia.
      * intros [-> [px [-> [Hpx Hm]]]].
        destruct (Z.ltb_spec px (x + dashLen)).
        -- left; exists px; split; [reflexivity |]; apply in_zseq; lia.
        -- right; split; [reflexivity |]; exists px; split; [reflexivity |]; split; [lia |].
           replace (px - (x + dashLen)) with (px - x - dashLen) by lia.
           rewrite mod_shift by lia.
           pose proof (Z.mod_pos_bound (px - x) (dashLen + gapLen) ltac:(lia)).
           destruct (Z.ltb_spec ((px - x) mod (dashLen + gapLen)) dashLen); lia.
    + rewrite (IH (x + gapLen) true ltac:(lia)).
      split.
      * intros [-> [px [-> [Hpx Hm]]]].
        split; [reflexivity |]; exists px; split; [reflexivity |]; split; [lia |].
        replace (px - (x + gapLen)) with (px - x - gapLen) in Hm by lia.
        rewrite (Z.add_comm dashLen gapLen) in Hm |- *.
        rewrite mod_shift in Hm by lia.
        pose proof (Z.mod_pos_bound (px - x) (gapLen + dashLen) ltac:(lia)).
        destruct (Z.ltb_spec ((px - x) mod (gapLen + dashLen)) gapLen); lia.
      * intros [-> [px [-> [Hpx Hm]]]].
        split; [reflexivity |]; exists px; split; [reflexivity |].
        pose proof (Z.mod_le (px - x) (dashLen + gapLen) ltac:(lia) ltac:(lia)).
        split; [lia |].
        replace (px - (x + gapLen)) with (px - x - gapLen) by lia.
        rewrite (Z.add_comm dashLen gapLen) in Hm |- *.
        rewrite mod_shift by lia.
        pose proof (Z.mod_pos_bound (px - x) (gapLen + dashLen) ltac:(lia)).
        destruct (Z.ltb_spec ((px - x) mod (gapLen + dashLen)) gapLen); lia.
Qed.

(** For positive dash and gap lengths, [drawDashedHLine] paints, in its
    colour, exactly the pixels [px] of row [y] with [x1 <= px < x2] whose
    offset [(px - x1) mod (dashLen + gapLen)] falls in a dash. *)
Theorem dashed_pattern (width y x1 x2 color dashLen gapLen i v : Z) :
  1 <= dashLen -> 1 <= gapLen ->
  In (i, v) (drawDashedHLine width y x1 x2 color dashLen gapLen) <->
  v = color /\
  exists px, i = y * width + px /\ x1 <= px < x2 /\
    (px - x1) mod (dashLen + gapLen) < dashLen.
Proof.
  intros Hd Hg; unfold drawDashedHLine.
  rewrite (dashed_loop_cells width y x2 color dashLen gapLen i v Hd Hg _ x1 true (le_n _)).
  reflexivity.
Qed.

Lemma dashed_pattern_witness :
  In (480 * 10 + 36, DARK_GRAY) (drawDashedHLine 480 10 24 456 DARK_GRAY 6 4) /\
  ~ In (480 * 10 + 41, DARK_GRAY) (drawDashedHLine 480 10 24 456 DARK_GRAY 6 4).
Proof.
  split.
  - apply (proj2 (dashed_pattern 480 10 24 456 DARK_GRAY 6 4 _ _ ltac:(lia) ltac:(lia))).
    split; [reflexivity |]; exists 36; split; [reflexivity | split; [lia | reflexivity]].
  - rewrite (dashed_pattern 480 10 24 456 DARK_GRAY 6 4 _ _ ltac:(lia) ltac:(lia)).
    intros [_ [px [Hi [_ Hm]]]].
    assert (px = 41) by lia; subst px; vm_compute in Hm; discriminate.
Defined.

Lemma trunc_iter_shape (m : Z) : forall n t,
  (forall k, (k < n)%nat -> title_cond m (Nat.iter k trunc_step t) = true) ->
  n = O \/
  exists p q, t = p ++ q /\ Nat.iter n trunc_step t = p ++ js "..." /\
    (length (Nat.iter n trunc_step t) + n = length t)%nat.
Proof.
  induction n as [| n IH]; intros t H; [left; reflexivity | right].
  rewrite Nat.iter_succ.
  pose proof (trunc_step_length m _ (H n (Nat.lt_succ_diag_r n))) as [H4 Hl].
  rewrite Hl.
  destruct (IH t (fun k Hk => H k (Nat.lt_lt_succ_r _ _ Hk))) as [-> | [p [q [Ht [Hu Hlen]]]]].
  - change (Nat.iter 0 trunc_step t) with t in *.
    exists (firstn (length t - 4) t), (skipn (length t - 4) t).
    split; [symmetry; apply firstn_skipn |].
    split; [reflexivity | lia].
  - rewrite Hu in Hl, H4 |- *.
    assert (H3 : length (js "...") = 3%nat) by reflexivity.
    rewrite length_app, H3 in H4.
    unfold trunc_step, slice_0_m4.
    rewrite length_app, H3, firstn_app.
    replace (length p + 3 - 4 - length p)%nat with O by lia.
    rewrite firstn_O, app_nil_r.
    exists (firstn (length p + 3 - 4) p), (skipn (length p + 3 - 4) p ++ q).
    split; [rewrite app_assoc, firstn_skipn; exact Ht |].
    split; [reflexivity |].
    rewrite Hu, length_app, H3 in Hlen; lia.
Qed.

(** [truncateTitle] returns the title unchanged, or a proper prefix of
    it followed by ["..."], and then a strictly shorter string. *)
Theorem truncate_prefix_shape (m : Z) (t : jsstr) :
  truncateTitle m t = t \/
  exists p q, t = p ++ q /\ truncateTitle m t = p ++ js "..." /\
    (length (truncateTitle m t) < length t)%nat.
Proof.
  destruct (truncate_loop_exit m (length t) t ltac:(lia)) as [_ [n [_ [Hn Hk]]]].
  unfold truncateTitle; rewrite Hn.
  destruct n as [| n]; [left; reflexivity | right].
  destruct (trunc_iter_shape m (S n) t Hk) as [H0 | [p [q [Ht [Hu Hlen]]]]]; [discriminate |].
  exists p, q; split; [exact Ht | split; [exact Hu | lia]].
Qed.


Lemma mod_mul_split (v b c : Z) : 0 < b -> 0 < c ->
  v mod (b * c) = v mod b + b * ((v / b) mod c).
Proof.
  intros Hb Hc.
  pose proof (Z.div_mod v b ltac:(lia)); pose proof (Z.mod_pos_bound v b Hb).
  pose proof (Z.div_mod (v / b) c ltac:(lia)); pose proof (Z.mod_pos_bound (v / b) c Hc).
  symmetry; apply (Z.mod_unique _ _ ((v / b) / c)); [left; nia | nia].
Qed.

Lemma read_le_bytes (b : buf) : forall n v off,
  (forall k, 0 <= k < Z.of_nat n -> bget b (off + k) = (v / 2 ^ (8 * k)) mod 256) ->
  read_le b off n = v mod 2 ^ (8 * Z.of_nat n).
Proof.
  induction n as [| n IH]; intros v off H; cbn [read_le].
  - rewrite Z.mod_1_r; reflexivity.
  - rewrite (IH (v / 256) (off + 1)).
    + specialize (H 0 ltac:(lia)); rewrite Z.add_0_r, Z.div_1_r in H; rewrite H.
      replace (8 * Z.of_nat (S n)) with (8 + 8 * Z.of_nat n) by lia.
      rewrite Z.pow_add_r by lia.
      rewrite (mod_mul_split v (2 ^ 8) (2 ^ (8 * Z.of_nat n))) by (apply Z.pow_pos_nonneg; lia).
      reflexivity.
    + intros k Hk.
      rewrite <- Z.add_assoc, (H (1 + k) ltac:(lia)), Z.div_div by (try apply Z.pow_pos_nonneg; lia).
      replace (8 * (1 + k)) with (8 + 8 * k) by lia.
      rewrite Z.pow_add_r by lia; reflexivity.
Qed.

Lemma last_write_unique (j v : Z) (ws : list write) :
  (forall u, In (j, u) ws -> u = v) -> In (j, v) ws -> last_write j ws = Some v.
Proof.
  intros Hu Hin.
  destruct (last_write j ws) as [u |] eqn:E.
  - apply last_write_in, Hu in E; subst; reflexivity.
  - exfalso; induction ws as [| [i a] r IH]; [destruct Hin |].
    cbn [last_write] in E; destruct (last_write j r) eqn:E'; [discriminate |].
    destruct Hin as [Heq | Hin].
    + injection Heq as -> ->; rewrite Z.eqb_refl in E; discriminate.
    + exact (IH (fun u H => Hu u (or_intror H)) Hin eq_refl).
Qed.

Lemma row_decode (R y x y' x' : Z) :
  0 <= x < R -> 0 <= x' < R -> y * R + x = y' * R + x' -> y = y' /\ x = x'.
Proof.
  intros Hx Hx' E.
  assert (y = y') by (destruct (Z.lt_trichotomy y y') as [H | [H | H]]; [nia | exact H | nia]).
  subst; split; lia.
Qed.

Lemma bmp_pixels_at (width height : Z) (pixelData : list Z) (x y : Z) :
  0 <= x < width -> 0 <= y < height ->
  last_write (1078 + y * bmp_row_size width + x)
    (bmp_pixels 1078 (bmp_row_size width) width height pixelData)
  = Some (u8_at pixelData (y * width + x)).
Proof.
  intros Hx Hy.
  assert (HR : width <= bmp_row_size width).
  { unfold bmp_row_size; pose proof (Z.div_mod (width + 3) 4 ltac:(lia)).
    pose proof (Z.mod_pos_bound (width + 3) 4 ltac:(lia)); lia. }
  apply last_write_unique.
  - intros u Hu; unfold bmp_pixels in Hu; apply in_flat_map in Hu as [y' [Hy' Hu]].
    apply in_map_iff in Hu as [x' [Heq Hx']]; apply in_zseq in Hy', Hx'.
    pose proof (f_equal fst Heq) as Hj; pose proof (f_equal snd Heq) as Hv.
    cbn [fst snd] in Hj, Hv; subst u.
    destruct (row_decode (bmp_row_size width) y x y' x' ltac:(lia) ltac:(lia) ltac:(lia)) as [<- <-].
    reflexivity.
  - unfold bmp_pixels; apply in_flat_map; exists y; split; [apply in_zseq; lia |].
    apply in_map_iff; exists x; split; [reflexivity | apply in_zseq; lia].
Qed.

Lemma bmp_pixels_padding (width height : Z) (pixelData : list Z) (x y : Z) :
  width <= x < bmp_row_size width -> 0 <= y ->
  last_write (1078 + y * bmp_row_size width + x)
    (bmp_pixels 1078 (bmp_row_size width) width height pixelData) = None.
Proof.
  intros Hx Hy; apply last_write_none; intros w Hw.
  unfold bmp_pixels in Hw; apply in_flat_map in Hw as [y' [Hy' Hw]].
  apply in_map_iff in Hw as [x' [<- Hx']]; apply in_zseq in Hy', Hx'; cbn [fst]; intros E.
  destruct (row_decode (bmp_row_size width) y x y' x' ltac:(lia) ltac:(lia) ltac:(lia)); lia.
Qed.

Lemma createBMP_some (width height : Z) (pixelData : list Z) (b : buf) :
  createBMP width height pixelData = Some b ->
  54 <= 1078 + bmp_row_size width * height /\
  b = apply_writes (buf_fill (1078 + bmp_row_size width * height) 0)
        (bmp_header width height ++ bmp_palette 54
         ++ bmp_pixels 1078 (bmp_row_size width) width height pixelData).
Proof.
  unfold createBMP; cbv zeta; rewrite ceil_div4.
  destruct (Z.ltb_spec (14 + 40 + 256 * 4 + (width + 3) / 4 * 4 * height) 54); [discriminate |].
  intros E; injection E as <-; split; [unfold bmp_row_size; lia | reflexivity].
Qed.

Lemma bmp_pixels_ge (width height : Z) (pixelData : list Z) (w : write) :
  In w (bmp_pixels 1078 (bmp_row_size width) width height pixelData) -> 1078 <= fst w.
Proof.
  unfold bmp_pixels; rewrite in_flat_map; intros [y [Hy Hw]].
  apply in_map_iff in Hw as [x [<- Hx]]; apply in_zseq in Hy, Hx; cbn [fst].
  unfold bmp_row_size.
  assert (0 <= (width + 3) / 4) by (apply Z.div_pos; lia).
  assert (0 <= y * ((width + 3) / 4 * 4)) by (apply Z.mul_nonneg_nonneg; lia).
  lia.
Qed.

Lemma bmp_header_lt (width height : Z) (w : write) :
  In w (bmp_header width height) -> fst w < 54.
Proof.
  unfold bmp_header, le_bytes; intros H.
  repeat (apply in_app_iff in H as [H | H]);
    try (apply in_map_iff in H as [k [<- Hk]]; apply in_zseq in Hk; cbn [fst]; lia).
  destruct H as [<- | [<- | []]]; cbn [fst]; lia.
Qed.

Lemma bmp_header_byte (width height : Z) (pixelData : list Z) (b : buf) (j : Z) :
  createBMP width height pixelData = Some b -> 0 <= j < 54 ->
  bget b j = match last_write j (bmp_header width height) with Some v => v mod 256 | None => 0 end.
Proof.
  intros E Hj; apply createBMP_some in E as [Hn ->].
  rewrite bget_apply_writes by (cbn [blen buf_fill]; lia).
  rewrite !last_write_app.
  rewrite (last_write_none j (bmp_pixels _ _ _ _ _))
    by (intros w Hw; apply bmp_pixels_ge in Hw; lia).
  rewrite (last_write_none j (bmp_palette 54))
    by (intros w Hw0; apply bmp_palette_index in Hw0; lia).
  reflexivity.
Qed.

Lemma bmp_header_field (width height : Z) (pixelData : list Z) (b : buf) (off v : Z) (n : nat) :
  createBMP width height pixelData = Some b -> 0 <= off -> off + Z.of_nat n <= 54 ->
  (forall k, 0 <= k < Z.of_nat n ->
     last_write (off + k) (bmp_header width height) = Some ((v / 2 ^ (8 * k)) mod 256)) ->
  read_le b off n = v mod 2 ^ (8 * Z.of_nat n).
Proof.
  intros E Ho Hn Hk; apply read_le_bytes; intros k Hk'.
  rewrite (bmp_header_byte width height pixelData b (off + k) E) by lia.
  rewrite Hk by exact Hk'; apply Zmod_mod.
Qed.

Ltac header_field :=
  let k := fresh "k" in let Hk := fresh "Hk" in
  intros k Hk;
  repeat match goal with
         | H : 0 <= k < Z.of_nat (S ?n) |- _ =>
             let Hn := fresh "Hk" in
             destruct (Z.eq_dec k (Z.of_nat n)) as [-> | ?];
             [clear H | assert (Hn : 0 <= k < Z.of_nat n) by lia; clear H]
         | H : 0 <= k < Z.of_nat O |- _ => exfalso; lia
         end;
  unfold bmp_header; rewrite !last_write_app, !last_write_le_bytes;
  eval_tests; cbv [andb last_write]; eval_tests; cbv [andb]; reflexivity.


(** The header [createBMP] writes reads back as a BMP reader decodes it:
    the magic ['BM'], the file size (the buffer length modulo [2^32]), the
    reserved zero, the pixel data offset 1078, the DIB size 40, the width
    (modulo [2^32]), one plane, the image size (the pixel data length modulo
    [2^32]), 2835 pixels per metre both ways and 256 colours, all used. *)
Theorem createBMP_header_fields (width height : Z) (pixelData : list Z) (b : buf) :
  createBMP width height pixelData = Some b ->
  bget b 0 = 66 /\ bget b 1 = 77 /\
  read_le b 2 4 = blen b mod 2 ^ 32 /\
  read_le b 6 4 = 0 /\
  read_le b 10 4 = 1078 /\
  read_le b 14 4 = 40 /\
  read_le b 18 4 = width mod 2 ^ 32 /\
  read_le b 26 2 = 1 /\
  read_le b 34 4 = (blen b - 1078) mod 2 ^ 32 /\
  read_le b 38 4 = 2835 /\ read_le b 42 4 = 2835 /\
  read_le b 46 4 = 256 /\ read_le b 50 4 = 256.
Proof.
  intros E.
  assert (Hl : blen b = 1078 + bmp_row_size width * height).
  { destruct (createBMP_some _ _ _ _ E) as [_ ->]; rewrite blen_apply_writes; reflexivity. }
  rewrite Hl; replace (1078 + bmp_row_size width * height - 1078) with (bmp_row_size width * height) by lia.
  split; [rewrite (bmp_header_byte _ _ _ _ 0 E) by lia; reflexivity |].
  split; [rewrite (bmp_header_byte _ _ _ _ 1 E) by lia; reflexivity |].
  split; [apply (bmp_header_field _ _ _ _ 2 _ 4 E); [lia | lia | header_field] |].
  split; [apply (bmp_header_field _ _ _ _ 6 0 4 E); [lia | lia | header_field] |].
  split; [apply (bmp_header_field _ _ _ _ 10 1078 4 E); [lia | lia | header_field] |].
  split; [apply (bmp_header_field _ _ _ _ 14 40 4 E); [lia | lia | header_field] |].
  split; [apply (bmp_header_field _ _ _ _ 18 _ 4 E); [lia | lia | header_field] |].
  split; [apply (bmp_header_field _ _ _ _ 26 1 2 E); [lia | lia | header_field] |].
  split; [apply (bmp_header_field _ _ _ _ 34 _ 4 E); [lia | lia | header_field] |].
  split; [apply (bmp_header_field _ _ _ _ 38 2835 4 E); [lia | lia | header_field] |].
  split; [apply (bmp_header_field _ _ _ _ 42 2835 4 E); [lia | lia | header_field] |].
  split; [apply (bmp_header_field _ _ _ _ 46 256 4 E); [lia | lia | header_field] |].
  apply (bmp_header_field _ _ _ _ 50 256 4 E); [lia | lia | header_field].
Qed.

Lemma bmp_pixel_byte (width height : Z) (pixelData : list Z) (b : buf) (x y : Z) :
  createBMP width height pixelData = Some b -> 0 <= x < width -> 0 <= y < height ->
  bget b (1078 + y * bmp_row_size width + x) = u8_at pixelData (y * width + x) mod 256.
Proof.
  intros E Hx Hy; apply createBMP_some in E as [Hn ->].
  assert (HR : width <= bmp_row_size width).
  { unfold bmp_row_size; pose proof (Z.div_mod (width + 3) 4 ltac:(lia)).
    pose proof (Z.mod_pos_bound (width + 3) 4 ltac:(lia)); lia. }
  rewrite bget_apply_writes by (cbn [blen buf_fill]; nia).
  rewrite !last_write_app, bmp_pixels_at by lia; reflexivity.
Qed.

Lemma bmp_padding_byte (width height : Z) (pixelData : list Z) (b : buf) (x y : Z) :
  createBMP width height pixelData = Some b ->
  0 <= width <= x -> x < bmp_row_size width -> 0 <= y < height ->
  bget b (1078 + y * bmp_row_size width + x) = 0.
Proof.
  intros E Hw Hx Hy; apply createBMP_some in E as [Hn ->].
  rewrite bget_apply_writes by (cbn [blen buf_fill]; nia).
  assert (0 <= y * bmp_row_size width) by (apply Z.mul_nonneg_nonneg; lia).
  rewrite !last_write_app, bmp_pixels_padding by lia.
  rewrite (last_write_none _ (bmp_palette 54))
    by (intros w Hw0; apply bmp_palette_index in Hw0; lia).
  rewrite (last_write_none _ (bmp_header width height))
    by (intros w Hw0; apply bmp_header_lt in Hw0; lia).
  reflexivity.
Qed.

(** Pixel [(x, y)] of the image ([0 <= x < width], [0 <= y < height]) is
    stored at byte [1078 + y * paddedRowSize + x] as [pixelData[y*width+x]]
    modulo 256 (a missing entry reads as 0). *)
Theorem createBMP_pixel_roundtrip (width height : Z) (pixelData : list Z) (b : buf) (x y : Z) :
  createBMP width height pixelData = Some b -> 0 <= x < width -> 0 <= y < height ->
  bget b (1078 + y * ((width + 3) / 4 * 4) + x) = nth (Z.to_nat (y * width + x)) pixelData 0 mod 256.
Proof.
  intros E Hx Hy.
  change ((width + 3) / 4 * 4) with (bmp_row_size width).
  rewrite (bmp_pixel_byte width height pixelData b x y E Hx Hy).
  unfold u8_at; destruct (Z.leb_spec 0 (y * width + x)); [reflexivity | nia].
Qed.

Lemma createBMP_pixel_roundtrip_witness :
  exists b, createBMP 3 2 [10; 20; 30; 40; 50; 300] = Some b /\
    bget b (1078 + 1 * ((3 + 3) / 4 * 4) + 2) = 44.
Proof.
  eexists; split; [reflexivity |].
  rewrite (createBMP_pixel_roundtrip 3 2 [10; 20; 30; 40; 50; 300] _ 2 1 eq_refl ltac:(lia) ltac:(lia)).
  reflexivity.
Defined.

(** The padding bytes of each row, columns [width <= x < paddedRowSize],
    are zero. *)
Theorem createBMP_padding_zero (width height : Z) (pixelData : list Z) (b : buf) (x y : Z) :
  createBMP width height pixelData = Some b ->
  0 <= width <= x -> x < (width + 3) / 4 * 4 -> 0 <= y < height ->
  bget b (1078 + y * ((width + 3) / 4 * 4) + x) = 0.
Proof. exact (bmp_padding_byte width height pixelData b x y). Qed.

Lemma createBMP_padding_zero_witness :
  exists b, createBMP 3 2 [10; 20; 30; 40; 50; 60] = Some b /\
    bget b (1078 + 1 * ((3 + 3) / 4 * 4) + 3) = 0.
Proof.
  eexists; split; [reflexivity |].
  exact (createBMP_padding_zero 3 2 [10; 20; 30; 40; 50; 60] _ 3 1 eq_refl ltac:(lia) ltac:(vm_compute; reflexivity) ltac:(lia)).
Defined.

Lemma createBMP_header_fields_witness :
  exists b, createBMP 3 2 [10; 20; 30; 40; 50; 60] = Some b /\ read_le b 2 4 = 1086 /\ read_le b 18 4 = 3.
Proof.
  eexists; split; [reflexivity |].
  destruct (createBMP_header_fields 3 2 [10; 20; 30; 40; 50; 60] _ eq_refl)
    as [_ [_ [H2 [_ [_ [_ [H18 _]]]]]]].
  split; [rewrite H2 | rewrite H18]; reflexivity.
Defined.

Lemma renderDisplay_levels (mcos msin : Z -> Q) (width height : Z) (weather : WeatherData)
    (days : list DayEvents) (g : GeneratedAt) (b : buf) (i : Z) :
  renderDisplay mcos msin width height weather days g = Some b ->
  0 <= i < blen b -> In (bget b i) levels.
Proof.
  unfold renderDisplay; destruct (width * height <? 0); [discriminate |].
  intros Hb Hi; injection Hb as <-.
  rewrite blen_apply_writes in Hi.
  rewrite (bget_apply_writes _ _ _ Hi).
  destruct (last_write i _) as [v |] eqn:E; [| cbn; auto 6].
  apply last_write_in, render_writes_levels in E; cbn [snd] in E.
  unfold levels in E; cbn in E |- *.
  destruct E as [<- | [<- | [<- | [<- | []]]]]; cbn; auto 6.
Qed.

Lemma u8_at_buf_list_levels (b : buf) (i : Z) :
  (forall j, 0 <= j < blen b -> In (bget b j) levels) ->
  In (u8_at (buf_list b) i) levels.
Proof.
  intros H; unfold u8_at, buf_list.
  destruct (Z.leb_spec 0 i); [| cbn; auto].
  destruct (Nat.lt_ge_cases (Z.to_nat i) (length (map (bget b) (zseq 0 (blen b))))) as [Hl | Hl].
  - apply (nth_In _ 0) in Hl; apply in_map_iff in Hl as [j [<- Hj]].
    apply in_zseq in Hj; apply H; lia.
  - rewrite nth_overflow by exact Hl; cbn; auto.
Qed.

Lemma u8_at_buf_list (b : buf) (i : Z) :
  0 <= i < blen b -> u8_at (buf_list b) i = bget b i.
Proof.
  intros Hi; unfold u8_at, buf_list, zseq.
  destruct (Z.leb_spec 0 i); [| lia].
  rewrite (nth_indep _ 0 (bget b (0 + Z.of_nat 0)))
    by (rewrite !length_map, length_seq; lia).
  rewrite map_map, (map_nth (fun k => bget b (0 + Z.of_nat k))), seq_nth by lia.
  f_equal; lia.
Qed.

Lemma createBMP_exists (width height : Z) (pixelData : list Z) :
  54 <= 14 + 40 + 256 * 4 + (width + 3) / 4 * 4 * height ->
  exists b, createBMP width height pixelData = Some b.
Proof.
  intros H; unfold createBMP; cbv zeta; rewrite ceil_div4.
  destruct (Z.ltb_spec (14 + 40 + 256 * 4 + (width + 3) / 4 * 4 * height) 54); [lia |].
  eexists; reflexivity.
Qed.

(** Every byte of the pixel array of the BMP the handler serves is one of
    the grey levels 0, 64, 176 and 255, for every configuration, weather,
    days and trigonometric functions. *)
Theorem served_bmp_grey_levels (mcos msin : Z -> Q) (DISPLAY_WIDTH DISPLAY_HEIGHT : option jsstr)
    (weather : WeatherData) (days : list DayEvents) (g : GeneratedAt) (bmp : buf) (i : Z) :
  fetch_bmp mcos msin DISPLAY_WIDTH DISPLAY_HEIGHT weather days g = Some bmp ->
  1078 <= i < blen bmp ->
  In (bget bmp i) [INK_BLACK; DARK_GRAY; LIGHT_GRAY; PAPER_WHITE].
Proof.
  unfold fetch_bmp; cbv zeta.
  set (width := display_width DISPLAY_WIDTH); set (height := display_height DISPLAY_HEIGHT).
  destruct (renderDisplay mcos msin width height weather days g) as [px |] eqn:Hr; [| discriminate].
  intros E Hi.
  pose proof (fun j => renderDisplay_levels _ _ _ _ _ _ _ px j Hr) as Hlev.
  apply createBMP_some in E as [Hn ->].
  rewrite blen_apply_writes in Hi; cbn [blen buf_fill] in Hi.
  rewrite bget_apply_writes by (cbn [blen buf_fill]; lia).
  rewrite !last_write_app.
  rewrite (last_write_none _ (bmp_palette 54))
    by (intros w Hw0; apply bmp_palette_index in Hw0; lia).
  rewrite (last_write_none _ (bmp_header width height))
    by (intros w Hw0; apply bmp_header_lt in Hw0; lia).
  destruct (last_write i (bmp_pixels _ _ _ _ _)) as [v |] eqn:Ev; [| cbn; auto 6].
  apply last_write_in in Ev.
  unfold bmp_pixels in Ev; apply in_flat_map in Ev as [y [_ Ev]].
  apply in_map_iff in Ev as [x [Heq _]].
  pose proof (f_equal snd Heq) as Hv; cbn [snd] in Hv; subst v.
  pose proof (u8_at_buf_list_levels px (y * width + x) Hlev) as Hl.
  change (In ?a [INK_BLACK; DARK_GRAY; LIGHT_GRAY; PAPER_WHITE]) with (In a levels).
  unfold levels in Hl |- *; cbn in Hl |- *.
  destruct Hl as [<- | [<- | [<- | [<- | []]]]]; cbn; auto 6.
Qed.

Lemma served_bmp_grey_levels_witness :
  exists bmp, fetch_bmp trig0 trig0 (Some (js "480")) (Some (js "800")) rainy [busy_day] noon = Some bmp /\
    bget bmp (1078 + 30 * 480 + 34) = INK_BLACK /\
    In (bget bmp (1078 + 30 * 480 + 34)) [INK_BLACK; DARK_GRAY; LIGHT_GRAY; PAPER_WHITE].
Proof.
  pose (px := apply_writes (buf_fill (480 * 800) PAPER_WHITE)
                (render_writes trig0 trig0 480 800 rainy [busy_day] noon)).
  assert (Hr : renderDisplay trig0 trig0 480 800 rainy [busy_day] noon = Some px) by reflexivity.
  assert (Hc : exists bmp, createBMP 480 800 (buf_list px) = Some bmp) by (apply createBMP_exists; vm_compute; discriminate).
  destruct Hc as [bmp Hc].
  assert (Hf : fetch_bmp trig0 trig0 (Some (js "480")) (Some (js "800")) rainy [busy_day] noon = Some bmp).
  { unfold fetch_bmp.
    replace (display_width (Some (js "480"))) with 480 by reflexivity.
    replace (display_height (Some (js "800"))) with 800 by reflexivity.
    rewrite Hr; exact Hc. }
  exists bmp; split; [exact Hf | split].
  - change (1078 + 30 * 480 + 34) with (1078 + 30 * bmp_row_size 480 + 34).
    rewrite (bmp_pixel_byte 480 800 (buf_list px) bmp 34 30 Hc ltac:(lia) ltac:(lia)).
    rewrite u8_at_buf_list by (unfold px; rewrite blen_apply_writes; cbn; lia).
    vm_compute; reflexivity.
  - apply (served_bmp_grey_levels trig0 trig0 (Some (js "480")) (Some (js "800")) rainy [busy_day] noon bmp _ Hf).
    apply createBMP_some in Hc as [_ ->]; rewrite blen_apply_writes; cbn; lia.
Defined.

Lemma digits_aux_spec : forall f n acc,
  0 <= n -> n < 2 ^ Z.of_nat f -> (1 <= f)%nat ->
  exists d ds, digits_aux f n acc = map (Z.add 48) (d :: ds) ++ acc /\
    Forall (fun e => 0 <= e <= 9) (d :: ds) /\
    digits_to_Z 10 (d :: ds) = n /\ (0 < n -> d <> 0).
Proof.
  induction f as [| f IH]; intros n acc Hn Hf H1; [lia |].
  cbn [digits_aux].
  pose proof (Z.mod_pos_bound n 10 ltac:(lia)) as Hm.
  pose proof (Z.div_mod n 10 ltac:(lia)) as Hd.
  destruct (Z.ltb_spec n 10) as [Hlt | Hge].
  - exists n, []; rewrite Z.mod_small by lia.
    split; [reflexivity |]; split; [repeat constructor; lia |].
    split; [reflexivity | lia].
  - assert (Hf' : (1 <= f)%nat).
    { destruct f; [cbn in Hf; lia | lia]. }
    assert (Hq : n / 10 < 2 ^ Z.of_nat f).
    { rewrite Nat2Z.inj_succ, Z.pow_succ_r in Hf by lia; lia. }
    destruct (IH (n / 10) ((48 + n mod 10) :: acc) ltac:(apply Z.div_pos; lia) Hq Hf')
      as [d [ds [He [Hall [Hv Hlead]]]]].
    exists d, (ds ++ [n mod 10]).
    split; [rewrite He; cbn [map app]; rewrite map_app, <- app_assoc; reflexivity |].
    split; [rewrite app_comm_cons; apply Forall_app; split; [exact Hall | repeat constructor; lia] |].
    split.
    + rewrite app_comm_cons; unfold digits_to_Z in *; rewrite fold_left_app, Hv; cbn; lia.
    + intros _; apply Hlead; apply Z.div_str_pos; lia.
Qed.

Lemma digit_value_lt10 (u : Z) : (digit_value u <? 10) = (48 <=? u) && (u <=? 57).
Proof.
  unfold digit_value.
  destruct (Z.leb_spec 48 u), (Z.leb_spec u 57); cbn [andb];
    [apply Z.ltb_lt; lia | | |];
    destruct (Z.leb_spec 97 u), (Z.leb_spec u 122); cbn [andb];
    try (apply Z.ltb_ge; lia);
    destruct (Z.leb_spec 65 u), (Z.leb_spec u 90); cbn [andb];
    apply Z.ltb_ge; lia.
Qed.

Lemma digits_prefix_dec (ds : list Z) (rest : jsstr) :
  Forall (fun e => 0 <= e <= 9) ds ->
  (forall u r, rest = u :: r -> ~ (48 <= u <= 57)) ->
  digits_prefix 10 (map (Z.add 48) ds ++ rest) = ds.
Proof.
  intros Hall Hr; induction Hall as [| e ds He Hall IH]; cbn [map app digits_prefix].
  - destruct rest as [| u r]; [reflexivity |].
    cbn [digits_prefix]; specialize (Hr u r eq_refl).
    rewrite digit_value_lt10.
    destruct (Z.leb_spec 48 u), (Z.leb_spec u 57); cbn [andb]; [lia | reflexivity ..].
  - rewrite digit_value_lt10, IH.
    replace ((48 <=? 48 + e) && (48 + e <=? 57)) with true
      by (symmetry; apply andb_true_iff; split; [apply Z.leb_le | apply Z.leb_le]; lia).
    f_equal; unfold digit_value.
    replace ((48 <=? 48 + e) && (48 + e <=? 57)) with true
      by (symmetry; apply andb_true_iff; split; [apply Z.leb_le | apply Z.leb_le]; lia).
    lia.
Qed.

Lemma trim_start_spaces (ws s : jsstr) :
  forallb is_js_space ws = true -> trim_start (ws ++ s) = trim_start s.
Proof.
  induction ws as [| u ws IH]; cbn [forallb app trim_start]; [reflexivity |].
  intros H; apply andb_true_iff in H as [Hu H]; rewrite Hu; exact (IH H).
Qed.


Ltac digit_cases d :=
  let H := fresh in
  match goal with Hd : 1 <= d <= 9 |- _ =>
    assert (H : d = 1 \/ d = 2 \/ d = 3 \/ d = 4 \/ d = 5 \/ d = 6 \/ d = 7 \/ d = 8 \/ d = 9) by lia;
    clear Hd; repeat destruct H as [H | H]; subst d
  end.

Lemma parseInt_digits (d : Z) (L : jsstr) (ds : list Z) :
  1 <= d <= 9 -> digits_prefix 10 ((48 + d) :: L) = d :: ds ->
  parseInt ((48 + d) :: L) = Some (digits_to_Z 10 (d :: ds)).
Proof.
  intros Hd H; remember (48 + d) as u eqn:Hu; digit_cases d; vm_compute in Hu; subst u;
    unfold parseInt;
    cbn -[digits_prefix digits_to_Z Z.mul Z.opp]; rewrite H; cbv beta iota; f_equal; lia.
Qed.

Lemma parseInt_neg_digits (d : Z) (L : jsstr) (ds : list Z) :
  1 <= d <= 9 -> digits_prefix 10 ((48 + d) :: L) = d :: ds ->
  parseInt (45 :: (48 + d) :: L) = Some (- digits_to_Z 10 (d :: ds)).
Proof.
  intros Hd H; remember (48 + d) as u eqn:Hu; digit_cases d; vm_compute in Hu; subst u;
    unfold parseInt;
    cbn -[digits_prefix digits_to_Z Z.mul Z.opp]; rewrite H; cbv beta iota; f_equal; lia.
Qed.

Lemma digits_aux_pos (n : Z) : 0 < n ->
  exists d ds, digits_aux (S (Z.to_nat (Z.log2 n))) n [] = map (Z.add 48) (d :: ds) /\
    Forall (fun e => 0 <= e <= 9) (d :: ds) /\ digits_to_Z 10 (d :: ds) = n /\ 1 <= d <= 9.
Proof.
  intros Hn.
  pose proof (Z.log2_spec n Hn) as [_ Hl].
  pose proof (Z.log2_nonneg n).
  destruct (digits_aux_spec (S (Z.to_nat (Z.log2 n))) n [] ltac:(lia)
              ltac:(rewrite Nat2Z.inj_succ, Z2Nat.id by lia; exact Hl) ltac:(lia))
    as [d [ds [He [Hall [Hv Hlead]]]]].
  exists d, ds; rewrite app_nil_r in He; split; [exact He |]; split; [exact Hall |].
  split; [exact Hv |].
  inversion Hall; subst; specialize (Hlead Hn); lia.
Qed.

Lemma parseInt_spaces (ws s : jsstr) :
  forallb is_js_space ws = true -> parseInt (ws ++ s) = parseInt s.
Proof. intros H; unfold parseInt; rewrite trim_start_spaces by exact H; reflexivity. Qed.

(** A configured dimension written as the decimal digits of a nonzero
    integer [n] with [|n| <= 2^53] (with an optional minus sign), after any
    leading white space and before anything that does not start with a
    digit, is read as [n]. *)
Theorem config_dim_digits (n dflt : Z) (ws rest : jsstr) :
  n <> 0 -> Z.abs n <= 2 ^ 53 -> forallb is_js_space ws = true ->
  (forall u r, rest = u :: r -> ~ (48 <= u <= 57)) ->
  config_dim (Some (ws ++ Z_to_js n ++ rest)) dflt = n.
Proof.
  intros Hn _ Hws Hr; unfold config_dim.
  rewrite parseInt_spaces by exact Hws.
  unfold Z_to_js; destruct (Z.ltb_spec n 0) as [Hneg | Hpos].
  - destruct (digits_aux_pos (- n) ltac:(lia)) as [d [ds [He [Hall [Hv Hd]]]]].
    rewrite He; cbn [map app].
    assert (Hp : digits_prefix 10 ((48 + d) :: map (Z.add 48) ds ++ rest) = d :: ds)
      by exact (digits_prefix_dec (d :: ds) rest Hall Hr).
    rewrite (parseInt_neg_digits d _ ds Hd Hp), Hv.
    destruct (Z.eqb_spec (- - n) 0); [lia | lia].
  - destruct (digits_aux_pos n ltac:(lia)) as [d [ds [He [Hall [Hv Hd]]]]].
    rewrite He; cbn [map app].
    assert (Hp : digits_prefix 10 ((48 + d) :: map (Z.add 48) ds ++ rest) = d :: ds)
      by exact (digits_prefix_dec (d :: ds) rest Hall Hr).
    rewrite (parseInt_digits d _ ds Hd Hp), Hv.
    destruct (Z.eqb_spec n 0); [lia | reflexivity].
Qed.

Lemma config_dim_digits_witness :
  config_dim (Some (js " " ++ Z_to_js (-600) ++ js "px")) 480 = -600.
Proof.
  apply config_dim_digits; [lia | vm_compute; discriminate | reflexivity |].
  intros u r H; injection H as <- _; lia.
Defined.

Section CalendarProofs.

Context {Date : Type} {api : DateAPI Date}.

Variable sort_days : list (DayEntry Date) -> list (DayEntry Date).

Lemma jsstr_eqb_spec (a b : jsstr) : jsstr_eqb a b = true <-> a = b.
Proof.
  revert b; induction a as [| x a IH]; intros [| y b]; cbn; try (split; congruence).
  rewrite andb_true_iff, Z.eqb_eq, IH; split; [intros [-> ->]; reflexivity | intros H; injection H; auto].
Qed.

Lemma jsstr_eqb_refl (a : jsstr) : jsstr_eqb a a = true.
Proof. apply jsstr_eqb_spec; reflexivity. Qed.

Lemma map_has_spec (k : jsstr) (m : @EventMap Date) : map_has k m = true <-> In k (map fst m).
Proof.
  unfold map_has; rewrite existsb_exists, in_map_iff; split.
  - intros [p [Hp He]]; apply jsstr_eqb_spec in He; exists p; auto.
  - intros [p [He Hp]]; exists p; split; [exact Hp | apply jsstr_eqb_spec; exact He].
Qed.

Lemma map_push_absent (k : jsstr) (e : CalendarEvent) (m : @EventMap Date) :
  ~ In k (map fst m) -> map_push k e m = m.
Proof.
  induction m as [| p m IH]; intros H; [reflexivity |].
  cbn [map_push map] in *; fold (map_push k e m).
  destruct (jsstr_eqb (fst p) k) eqn:E.
  - apply jsstr_eqb_spec in E; exfalso; apply H; left; exact E.
  - rewrite IH by (intros Hi; apply H; right; exact Hi); reflexivity.
Qed.

Lemma map_inv_nil : map_inv [] [].
Proof.
  split; [constructor | split; [intros k d es [] | split; [intros p [] | constructor]]].
Qed.

Lemma filter_key_app (k : jsstr) (P : list (Date * CalendarEvent)) (d : Date) (e : CalendarEvent) :
  filter (key_eq k) (P ++ [(d, e)]) =
  filter (key_eq k) P ++ (if jsstr_eqb (toDateString d) k then [(d, e)] else []).
Proof. rewrite filter_app; reflexivity. Qed.

Lemma map_inv_step (m : @EventMap Date) (P : list (Date * CalendarEvent)) (d : Date) (e : CalendarEvent) :
  map_inv m P -> map_inv (group_step m d e) (P ++ [(d, e)]).
Proof.
  intros [Hnd [Hent [Hcov Hperm]]].
  unfold group_step.
  set (k := toDateString d).
  destruct (map_has k m) eqn:Hh.
  - apply map_has_spec in Hh.
    apply in_map_iff in Hh as [[k0 [d0 es0]] [Hk0 Hin]]; cbn [fst] in Hk0; subst k0.
    apply in_split in Hin as [ma [mb ->]].
    rewrite map_app in Hnd; cbn [map fst] in Hnd.
    assert (Ha : ~ In k (map fst ma)).
    { intros Hi; apply NoDup_remove_2 in Hnd; apply Hnd; apply in_app_iff; left; exact Hi. }
    assert (Hb : ~ In k (map fst mb)).
    { intros Hi; apply NoDup_remove_2 in Hnd; apply Hnd; apply in_app_iff; right; exact Hi. }
    assert (Hpush : map_push k e (ma ++ (k, (d0, es0)) :: mb) = ma ++ (k, (d0, es0 ++ [e])) :: mb).
    { unfold map_push; rewrite map_app; cbn [map fst snd]; rewrite jsstr_eqb_refl.
      fold (map_push k e ma); fold (map_push k e mb).
      rewrite map_push_absent, map_push_absent by assumption; reflexivity. }
    rewrite Hpush.
    split; [| split; [| split]].
    + rewrite map_app; exact Hnd.
    + intros k' d' es' Hi.
      rewrite filter_key_app.
      apply in_app_iff in Hi as [Hi | [Hi | Hi]].
      * destruct (Hent k' d' es' ltac:(apply in_app_iff; left; exact Hi)) as [H1 [H2 H3]].
        assert (k' <> k) by (intros ->; apply Ha; apply in_map_iff; exists (k, (d', es')); auto).
        destruct (jsstr_eqb (toDateString d) k') eqn:E;
          [apply jsstr_eqb_spec in E; exfalso; apply H; rewrite <- E; reflexivity |].
        rewrite app_nil_r; auto.
      * injection Hi as <- <- <-.
        destruct (Hent k d0 es0 ltac:(apply in_app_iff; right; left; reflexivity)) as [H1 [H2 H3]].
        fold k; rewrite jsstr_eqb_refl, map_app, <- H2.
        split; [exact H1 | split; [reflexivity | destruct es0; discriminate]].
      * destruct (Hent k' d' es' ltac:(apply in_app_iff; right; right; exact Hi)) as [H1 [H2 H3]].
        assert (k' <> k) by (intros ->; apply Hb; apply in_map_iff; exists (k, (d', es')); auto).
        destruct (jsstr_eqb (toDateString d) k') eqn:E;
          [apply jsstr_eqb_spec in E; exfalso; apply H; rewrite <- E; reflexivity |].
        rewrite app_nil_r; auto.
    + intros p Hp; apply in_app_iff in Hp as [Hp | [<- | []]].
      * specialize (Hcov p Hp); rewrite map_app in Hcov |- *; exact Hcov.
      * rewrite map_app; apply in_app_iff; right; left; reflexivity.
    + rewrite flat_map_app in Hperm |- *; cbn [flat_map snd] in Hperm |- *.
      rewrite map_app; cbn [map snd].
      rewrite <- !app_assoc.
      apply Permutation_trans with
        ((flat_map (fun q => snd (snd q)) ma ++ es0 ++ flat_map (fun q => snd (snd q)) mb) ++ [e]).
      * rewrite <- !app_assoc; apply Permutation_app_head, Permutation_app_head.
        apply Permutation_app_comm.
      * apply Permutation_app_tail; try rewrite <- !app_assoc in Hperm; exact Hperm.
  - assert (Hk : ~ In k (map fst m)) by (intros Hi; apply map_has_spec in Hi; congruence).
    assert (Hpush : map_push k e (m ++ [(k, (d, []))]) = m ++ [(k, (d, [e]))]).
    { unfold map_push; rewrite map_app; cbn [map fst snd]; rewrite jsstr_eqb_refl.
      fold (map_push k e m); rewrite map_push_absent by exact Hk; reflexivity. }
    rewrite Hpush.
    split; [| split; [| split]].
    + rewrite map_app; cbn [map fst]; apply NoDup_app; [exact Hnd | repeat constructor; intros [] |].
      intros x Hx [<- | []]; exact (Hk Hx).
    + intros k' d' es' Hi; rewrite filter_key_app.
      apply in_app_iff in Hi as [Hi | [Hi | []]].
      * destruct (Hent k' d' es' Hi) as [H1 [H2 H3]].
        assert (k' <> k) by (intros ->; apply Hk; apply in_map_iff; exists (k, (d', es')); auto).
        destruct (jsstr_eqb (toDateString d) k') eqn:E;
          [apply jsstr_eqb_spec in E; exfalso; apply H; rewrite <- E; reflexivity |].
        rewrite app_nil_r; auto.
      * injection Hi as <- <- <-.
        fold k; rewrite jsstr_eqb_refl.
        assert (Hnil : filter (key_eq k) P = []).
        { destruct (filter (key_eq k) P) as [| p r] eqn:Hf; [reflexivity | exfalso].
          assert (Hp : In p (filter (key_eq k) P)) by (rewrite Hf; left; reflexivity).
          apply filter_In in Hp as [Hp Hkp]; unfold key_eq in Hkp; apply jsstr_eqb_spec in Hkp.
          apply Hk; rewrite <- Hkp; exact (Hcov p Hp). }
        rewrite Hnil; split; [reflexivity | split; [reflexivity | discriminate]].
    + intros p Hp; rewrite map_app; apply in_app_iff; apply in_app_iff in Hp as [Hp | [<- | []]].
      * left; exact (Hcov p Hp).
      * right; left; reflexivity.
    + rewrite flat_map_app, map_app; cbn [flat_map snd map app].
      apply Permutation_app_tail; exact Hperm.
Qed.

Lemma group_loop_inv : forall items m P,
  map_inv m P -> Forall (fun it => start it <> None) items ->
  exists m', group_loop items m = Some m' /\ map_inv m' (P ++ item_entries items).
Proof.
  induction items as [| it rest IH]; intros m P Hinv Hall.
  - exists m; rewrite app_nil_r; split; [reflexivity | exact Hinv].
  - inversion Hall as [| ? ? Hit Hrest]; subst.
    cbn [group_loop item_entries flat_map].
    destruct (start it) as [st |]; [| contradiction].
    fold (item_entries rest).
    destruct (make_event it st) as [d e] eqn:Hme.
    destruct (IH (group_step m d e) (P ++ [(d, e)]) (map_inv_step m P d e Hinv) Hrest)
      as [m' [Hl Hm']].
    exists m'; split; [exact Hl |].
    rewrite <- app_assoc in Hm'; exact Hm'.
Qed.

Lemma group_loop_none : forall items m,
  Exists (fun it => start it = None) items -> group_loop items m = None.
Proof.
  induction items as [| it rest IH]; intros m H; [inversion H |].
  cbn [group_loop].
  inversion H as [? ? Hit | ? ? Hrest]; subst.
  - rewrite Hit; reflexivity.
  - destruct (start it) as [st |]; [| reflexivity].
    destruct (make_event it st); apply IH; exact Hrest.
Qed.

Lemma flat_map_map_gen {A B C : Type} (f : B -> list C) (g : A -> B) (l : list A) :
  flat_map f (map g l) = flat_map (fun x => f (g x)) l.
Proof. induction l as [| a l IH]; cbn [flat_map map]; [reflexivity | rewrite IH; reflexivity]. Qed.

(** [fetchCalendarEvents] always returns at least one day, and its first
    day is labelled ['TODAY'], whatever the configuration, the response and
    the order [days.sort] leaves. *)
Theorem calendar_first_today (API_KEY CAL_ID : option jsstr) (response : option (option (list Item)))
    (nowLocal tomorrowLocal mockNow mockTomorrow : Date) :
  exists d rest,
    fetchCalendarEvents sort_days API_KEY CAL_ID response nowLocal tomorrowLocal mockNow mockTomorrow = d :: rest /\
    day_label d = Some (js "TODAY").
Proof.
  unfold fetchCalendarEvents.
  destruct (negb (truthy API_KEY) || negb (truthy CAL_ID)); [do 2 eexists; split; reflexivity |].
  destruct response as [items |]; [| do 2 eexists; split; reflexivity].
  destruct (group_loop _ []) as [m |]; [| do 2 eexists; split; reflexivity].
  cbv zeta.
  destruct (sort_days _) as [| first rest] eqn:Hs; [do 2 eexists; split; reflexivity |].
  destruct (label_is_today (day_label first)) eqn:Ht; [| do 2 eexists; split; reflexivity].
  exists first, rest; split; [reflexivity |].
  unfold label_is_today in Ht; destruct (day_label first) as [s |]; [| discriminate].
  apply jsstr_eqb_spec in Ht; rewrite Ht; reflexivity.
Qed.

(** With the calendar configured, one item of the response without a
    [start] makes the whole result the mock events: the real events of the
    other items are dropped. *)
Theorem calendar_malformed_item_mock (API_KEY CAL_ID : option jsstr) (items : list Item)
    (nowLocal tomorrowLocal mockNow mockTomorrow : Date) :
  truthy API_KEY = true -> truthy CAL_ID = true ->
  Exists (fun it => start it = None) items ->
  fetchCalendarEvents sort_days API_KEY CAL_ID (Some (Some items)) nowLocal tomorrowLocal mockNow mockTomorrow
  = getMockEvents mockNow mockTomorrow.
Proof.
  intros Hk Hi Hex; unfold fetchCalendarEvents; rewrite Hk, Hi; cbn [negb orb].
  rewrite group_loop_none by exact Hex; reflexivity.
Qed.

Hypothesis sort_days_perm : forall l, Permutation (sort_days l) l.

(** With the calendar configured and every item having a [start], the days
    returned hold together every item's event exactly once; each day is the
    empty ['TODAY'] placeholder or a non-empty group holding, in response
    order, the events of the items whose [toDateString()] is that of the
    day's date, labelled by [getDayLabel] of that date. *)
Theorem calendar_groups (API_KEY CAL_ID : option jsstr) (itemsOpt : option (list Item))
    (nowLocal tomorrowLocal mockNow mockTomorrow : Date) :
  truthy API_KEY = true -> truthy CAL_ID = true ->
  let items := match itemsOpt with Some l => l | None => [] end in
  Forall (fun it => start it <> None) items ->
  let days := fetchCalendarEvents sort_days API_KEY CAL_ID (Some itemsOpt) nowLocal tomorrowLocal mockNow mockTomorrow in
  Permutation (flat_map day_events days) (map snd (item_entries items)) /\
  forall d, In d days ->
    d = {| day_label := Some (js "TODAY"); day_date := nowLocal; day_events := [] |} \/
    (day_events d = map snd (filter (key_eq (toDateString (day_date d))) (item_entries items)) /\
     day_events d <> [] /\
     day_label d = getDayLabel (day_date d) (toDateString nowLocal) (toDateString tomorrowLocal)).
Proof.
  intros Hk Hi items Hall days.
  subst days; unfold fetchCalendarEvents; rewrite Hk, Hi; cbn [negb orb].
  fold items.
  destruct (group_loop_inv items [] [] map_inv_nil Hall) as [m [Hl [Hnd [Hent [Hcov Hperm]]]]].
  rewrite Hl; cbv zeta.
  set (mk := fun p : jsstr * (Date * list CalendarEvent) =>
               {| day_label := getDayLabel (fst (snd p)) (toDateString nowLocal) (toDateString tomorrowLocal);
                  day_date := fst (snd p); day_events := snd (snd p) |}).
  set (today := {| day_label := Some (js "TODAY"); day_date := nowLocal; day_events := [] |}).
  assert (Hfl : Permutation (flat_map day_events (sort_days (map mk m))) (map snd (item_entries items))).
  { apply Permutation_trans with (flat_map day_events (map mk m)).
    - apply Permutation_flat_map, sort_days_perm.
    - rewrite flat_map_map_gen; exact Hperm. }
  assert (Hmem : forall d, In d (sort_days (map mk m)) ->
    day_events d = map snd (filter (key_eq (toDateString (day_date d))) (item_entries items)) /\
    day_events d <> [] /\
    day_label d = getDayLabel (day_date d) (toDateString nowLocal) (toDateString tomorrowLocal)).
  { intros d Hd.
    apply (Permutation_in _ (sort_days_perm (map mk m))) in Hd.
    apply in_map_iff in Hd as [[k [d0 es]] [<- Hq]].
    destruct (Hent k d0 es Hq) as [H1 [H2 H3]].
    cbn [mk day_events day_date day_label fst snd]; rewrite H1.
    split; [exact H2 | split; [exact H3 | reflexivity]]. }
  destruct (sort_days (map mk m)) as [| first rest] eqn:Hs.
  - split; [exact Hfl | intros d [<- | []]; left; reflexivity].
  - destruct (label_is_today (day_label first)).
    + split; [exact Hfl | intros d Hd; right; exact (Hmem d Hd)].
    + split; [exact Hfl |].
      intros d [<- | Hd]; [left; reflexivity | right; exact (Hmem d Hd)].
Qed.

End CalendarProofs.

Lemma sort_by_date_perm (l : list (DayEntry jsstr)) : Permutation (sort_by_date l) l.
Proof.
  assert (Hins : forall d r, Permutation (insert_by_date d r) (d :: r)).
  { intros d r; induction r as [| e r IH]; cbn [insert_by_date]; [reflexivity |].
    destruct (jsstr_leb _ _); [reflexivity |].
    apply Permutation_trans with (e :: d :: r); [constructor; exact IH | constructor]. }
  induction l as [| a l IH]; cbn [sort_by_date fold_right]; [reflexivity |].
  fold (sort_by_date l).
  apply Permutation_trans with (a :: sort_by_date l); [apply Hins | constructor; exact IH].
Qed.

Lemma calendar_groups_witness :
  let days := fetchCalendarEvents sort_by_date (Some (js "key")) (Some (js "cal"))
                (Some (Some sample_items))
                (js "2026-10-14T08:00") (js "2026-10-15T08:00") (js "now") (js "tomorrow") in
  Permutation (flat_map day_events days) (map snd (item_entries sample_items)) /\
  forall d, In d days ->
    d = {| day_label := Some (js "TODAY"); day_date := js "2026-10-14T08:00"; day_events := [] |} \/
    (day_events d = map snd (filter (key_eq (toDateString (day_date d))) (item_entries sample_items)) /\
     day_events d <> [] /\
     day_label d = getDayLabel (day_date d)
                     (toDateString (js "2026-10-14T08:00")) (toDateString (js "2026-10-15T08:00"))).
Proof.
  apply (calendar_groups sort_by_date sort_by_date_perm); [reflexivity | reflexivity |].
  repeat constructor; discriminate.
Defined.

Lemma calendar_malformed_item_mock_witness :
  fetchCalendarEvents sort_by_date (Some (js "key")) (Some (js "cal"))
    (Some (Some ({| summary := Some (js "Broken"); start := None |} :: sample_items)))
    (js "2026-10-14T08:00") (js "2026-10-15T08:00") (js "now") (js "tomorrow")
  = getMockEvents (js "now") (js "tomorrow").
Proof.
  apply calendar_malformed_item_mock; [reflexivity | reflexivity |].
  apply Exists_cons_hd; reflexivity.
Defined.

Lemma wmo_named_icon (code : Z) (name : jsstr) :
  wmo_lookup code = Some name -> icon_of_code code <> UnknownIcon.
Proof.
  unfold wmo_lookup; intros H.
  destruct (find _ WMO_CODES) as [[c s] |] eqn:E; [| discriminate H].
  apply find_some in E as [Hin Heq]; cbn in Heq; apply Z.eqb_eq in Heq; subst c.
  unfold WMO_CODES in Hin.
  repeat (destruct Hin as [Hin | Hin];
          [apply (f_equal fst) in Hin; cbn in Hin; subst code; vm_compute; discriminate |]).
  destruct Hin.
Qed.

(** Every weather code [fetchWeather] names (a condition other than
    ['Unknown']) selects one of the six drawn icons, not the unknown one. *)
Theorem named_condition_has_icon (code : Z) :
  weather_condition code <> js "Unknown" -> icon_of_code code <> UnknownIcon.
Proof.
  unfold weather_condition; destruct (wmo_lookup code) as [s |] eqn:E.
  - intros _; exact (wmo_named_icon code s E).
  - intros H; exfalso; apply H; reflexivity.
Qed.

Lemma named_condition_has_icon_witness :
  weather_condition 63 <> js "Unknown" /\ icon_of_code 63 <> UnknownIcon.
Proof.
  assert (H : weather_condition 63 <> js "Unknown") by (vm_compute; discriminate).
  split; [exact H | exact (named_condition_has_icon 63 H)].
Defined.

(** For a code routed to the unknown icon, including the [-1] of a failed
    weather fetch, [drawWeatherIcon] paints nothing: its ['?'] has no glyph
    in [FONT_DATA]. *)
Theorem unknown_icon_paints_nothing (mcos msin : Z -> Q) (width x y code : Z) :
  icon_of_code code = UnknownIcon -> drawWeatherIcon mcos msin width x y code = [].
Proof.
  intros H; unfold drawWeatherIcon; rewrite H.
  apply drawText_blank; intros c Hc; vm_compute in Hc.
  destruct Hc as [<- | []]; reflexivity.
Qed.

Lemma unknown_icon_paints_nothing_witness :
  icon_of_code (-1) = UnknownIcon /\
  drawWeatherIcon (fun _ => 0%Q) (fun _ => 0%Q) 480 24 20 (-1) = [].
Proof.
  split; [reflexivity | apply unknown_icon_paints_nothing; reflexivity].
Defined.
